(** * Host state, version parsing, latency tracking and the connection
    marketplace of the driver's [host.cpp], as a shallow embedding.

  The definitions follow the functions of [src/src/host.cpp]; the line
  numbers in the comments refer to that file.  What [host.cpp] takes
  from headers that are not part of the sources is modelled from the
  specification and marked as such.  Integers of a fixed width are
  values of [Z] with their wrap-around written out, C++ strings are
  [string], the per-shard container is a [gmap], and mutation is
  explicit state passing. *)

From Stdlib Require Import ZArith Lia List Ascii String.
From stdpp Require Import base decidable option list gmap strings pretty fin_maps.

Local Open Scope Z_scope.

(* ===================================================================== *)
(** ** Fixed-width integers *)
(* ===================================================================== *)

Module Int.

(** Unsigned reduction modulo [2^w]. *)
Definition wrap_unsigned (w : Z) (z : Z) : Z := z mod 2 ^ w.

(** Two's complement reading of the low [w] bits of [z]. *)
Definition wrap_signed (w : Z) (z : Z) : Z :=
  let u := z mod 2 ^ w in
  if u <? 2 ^ (w - 1) then u else u - 2 ^ w.

Definition to_uint64 : Z -> Z := wrap_unsigned 64.
Definition to_int64 : Z -> Z := wrap_signed 64.
Definition to_int32 : Z -> Z := wrap_signed 32.

Definition INT_MAX : Z := 2147483647.
Definition INT_MIN : Z := -2147483648.

End Int.

(* ===================================================================== *)
(** ** [sscanf] with the format ["%d.%d.%d"] *)
(* ===================================================================== *)

Module Scan.

(** [isspace] in the C locale: space, and the characters 9 to 13. *)
Definition is_space (c : ascii) : bool :=
  let n := Z.of_nat (nat_of_ascii c) in
  (n =? 32) || ((9 <=? n) && (n <=? 13)).

Definition digit_value (c : ascii) : option Z :=
  let n := Z.of_nat (nat_of_ascii c) in
  if (48 <=? n) && (n <=? 57) then Some (n - 48) else None.

(** [String::c_str()]: the text seen by [sscanf] ends at the first NUL. *)
Fixpoint c_str (s : string) : string :=
  match s with
  | EmptyString => EmptyString
  | String c t => if Ascii.eqb c Ascii.zero then EmptyString else String c (c_str t)
  end.

(** The texts that [c_str] hands over whole. *)
Fixpoint no_nul (s : string) : bool :=
  match s with
  | EmptyString => true
  | String c t => negb (Ascii.eqb c Ascii.zero) && no_nul t
  end.

Fixpoint skip_space (s : string) : string :=
  match s with
  | String c t => if is_space c then skip_space t else s
  | EmptyString => EmptyString
  end.

(** The longest run of decimal digits at the front of [s], accumulated
    in base ten on top of [acc]. *)
Fixpoint scan_digits (acc : Z) (s : string) : Z * string :=
  match s with
  | String c t =>
      match digit_value c with
      | Some d => scan_digits (10 * acc + d) t
      | None => (acc, s)
      end
  | EmptyString => (acc, EmptyString)
  end.

(** Outcome of one [%d] directive. *)
Inductive conversion : Type :=
| Converted (value : Z) (rest : string)
| InputFailure     (* end of input before any character of the item *)
| MatchingFailure. (* the input item is not a decimal integer *)

Definition starts_with_digit (s : string) : bool :=
  match s with
  | String c _ => match digit_value c with Some _ => true | None => false end
  | EmptyString => false
  end.

Definition scan_unsigned (negative : bool) (s : string) : conversion :=
  if starts_with_digit s then
    let '(v, rest) := scan_digits 0 s in
    Converted (Int.to_int32 (if negative then - v else v)) rest
  else MatchingFailure.

(** [%d]: skip white space, accept one optional sign, then at least one
    digit.  The value is stored in an [int]; C leaves a value outside
    the range of [int] undefined, the embedding keeps its low 32 bits. *)
Definition scan_int (s : string) : conversion :=
  match skip_space s with
  | EmptyString => InputFailure
  | String c t =>
      if Ascii.eqb c "-" then scan_unsigned true t
      else if Ascii.eqb c "+" then scan_unsigned false t
      else scan_unsigned false (String c t)
  end.

(** A literal ['.'] of the format: the next character must be a dot. *)
Definition scan_dot (s : string) : option string :=
  match s with
  | String c t => if Ascii.eqb c "." then Some t else None
  | EmptyString => None
  end.

Definition EOF : Z := -1.

(** [sscanf(text, "%d.%d.%d", &a, &b, &c)]: the return value and the
    three destinations after the call, given their contents before it.
    A destination is written as soon as its directive converts. *)
Definition sscanf_d_d_d (text : string) (a b c : Z) : Z * (Z * Z * Z) :=
  match scan_int text with
  | InputFailure => (EOF, (a, b, c))
  | MatchingFailure => (0, (a, b, c))
  | Converted a' r1 =>
      match scan_dot r1 with
      | None => (1, (a', b, c))
      | Some r2 =>
          match scan_int r2 with
          | Converted b' r3 =>
              match scan_dot r3 with
              | None => (2, (a', b', c))
              | Some r4 =>
                  match scan_int r4 with
                  | Converted c' _ => (3, (a', b', c'))
                  | _ => (2, (a', b', c))
                  end
              end
          | _ => (1, (a', b, c))
          end
      end
  end.

End Scan.

(* ===================================================================== *)
(** ** VersionNumber *)
(* ===================================================================== *)

Record VersionNumber : Type := mkVersion {
major_version : Z;
minor_version : Z;
patch_version : Z
}.

Module Version.

(** Modelled from the spec: the default constructor of [VersionNumber]
    is declared in host.hpp, which is not part of the sources; the
    spec gives the default value of a version as (0,0,0). *)
Definition default : VersionNumber := mkVersion 0 0 0.

(** [VersionNumber::parse] (lines 87-90): [sscanf] writes straight into
    the three members, and the call succeeds when at least two of them
    were assigned. *)
Definition parse (version : string) (self : VersionNumber) : bool * VersionNumber :=
  let '(n, (a, b, c)) :=
    Scan.sscanf_d_d_d (Scan.c_str version)
      (major_version self) (minor_version self) (patch_version self) in
  (2 <=? n, mkVersion a b c).

(** Modelled from the spec: the comparison operators of [VersionNumber]
    are declared in host.hpp, which is not part of the sources; the
    spec states that comparison is lexicographic over the triple. *)
Definition compare (x y : VersionNumber) : comparison :=
  match major_version x ?= major_version y with
  | Eq =>
      match minor_version x ?= minor_version y with
      | Eq => patch_version x ?= patch_version y
      | o => o
      end
  | o => o
  end.

Definition lt (x y : VersionNumber) : bool :=
  match compare x y with Lt => true | _ => false end.

Definition ge (x y : VersionNumber) : bool := negb (lt x y).

End Version.


(* ===================================================================== *)
(** ** LatencyTracker *)
(* ===================================================================== *)

(** [TimestampedAverage]: [average] is an [int64_t], [timestamp] and
    [num_measured] are [uint64_t]. *)
Record TimestampedAverage : Type := mkAverage {
  average : Z;
  timestamp : Z;
  num_measured : Z
}.

Record LatencyTracker : Type := mkTracker {
  scale_ns : Z;
  threshold_to_account : Z;
  current : TimestampedAverage
}.

Module Tracker.

(** Modelled from the spec: the constructors of [TimestampedAverage] and
    [LatencyTracker] are declared in host.hpp, which is not part of the
    sources; the spec describes a fresh tracker as having no measurement
    and the average "undefined", which is the value -1. *)
Definition create (scale threshold : Z) : LatencyTracker :=
  mkTracker scale threshold (mkAverage (-1) 0 0).

(** Modelled from the spec: [get_average] is declared in host.hpp, which
    is not part of the sources; the spec says that it returns the current
    average, or "undefined". *)
Definition get_average (t : LatencyTracker) : Z := average (current t).

Section Update.

(** Lines 77-80 compute the new average in double precision, with the
    [log] of the C library.  The embedding takes that computation as a
    function of the four integers it reads: [scale_ns_], [delay],
    [latency_ns] and [previous.average]. *)
Variable decayed_average : Z -> Z -> Z -> Z -> Z.

(** [Host::LatencyTracker::update] (lines 60-85).  [now] is the value that
    [uv_hrtime()] returns on line 61, a [uint64_t]; [latency_ns] is a
    [uint64_t] as well.  The early [return] of line 74 leaves [current_]
    as it was. *)
Definition update (now latency_ns : Z) (t : LatencyTracker) : LatencyTracker :=
  let previous := current t in
  let store (avg : Z) :=
    mkTracker (scale_ns t) (threshold_to_account t)
      (mkAverage avg now (Int.to_uint64 (num_measured previous + 1))) in
  if num_measured previous <? threshold_to_account t then
    store (-1)
  else if average previous <? 0 then
    store (Int.to_int64 latency_ns)
  else
    let delay := Int.to_int64 (now - timestamp previous) in
    if delay <=? 0 then t
    else store (decayed_average (scale_ns t) delay latency_ns (average previous)).

(** A run of [update] calls, oldest first; each call comes with the clock
    value it reads and with its sample. *)
Definition updates (calls : list (Z * Z)) (t : LatencyTracker) : LatencyTracker :=
  fold_left (fun acc call => update (fst call) (snd call) acc) calls t.

End Update.

End Tracker.

(* ===================================================================== *)
(** ** Host and the host registry *)
(* ===================================================================== *)

(** Modelled from the spec: [Address] is declared in address.hpp, which is
    not part of the sources; the spec describes it as a network endpoint
    (IP and port) compared by value. *)
Record Address : Type := mkAddress {
  addr_ip : string;
  addr_port : Z
}.

#[global] Instance Address_eq_dec : EqDecision Address.
Proof. solve_decision. Defined.

(** The members of [Host] that [Host::set] writes, and the address. *)
Record Host : Type := mkHost {
  address : Address;
  rack : string;
  dc : string;
  server_version : VersionNumber;
  dse_server_version : VersionNumber;
  partitioner : string;
  tokens : list string
}.

Module Registry.

(** [add_host] (lines 30-41): the first slot whose address equals the new
    host's address is overwritten and the scan stops; when the scan
    reaches the end, the host is pushed at the back. *)
Fixpoint add_host (hosts : list Host) (host : Host) : list Host :=
  match hosts with
  | [] => [host]
  | h :: rest =>
      if decide (address h = address host) then host :: rest
      else h :: add_host rest host
  end.

(** [remove_host] by address (lines 47-56): the first slot with that
    address is erased and the call returns true; false when there is none. *)
Fixpoint remove_host (hosts : list Host) (a : Address) : bool * list Host :=
  match hosts with
  | [] => (false, [])
  | h :: rest =>
      if decide (address h = a) then (true, rest)
      else let '(found, rest') := remove_host rest a in (found, h :: rest')
  end.

(** [remove_host] by host (lines 43-45) drops the result. *)
Definition remove_host_ptr (hosts : list Host) (host : Host) : list Host :=
  snd (remove_host hosts (address host)).

(** The entry of a collection for an address: the first one a scan meets. *)
Definition find_host (a : Address) (hosts : list Host) : option Host :=
  List.find (fun h => bool_decide (address h = a)) hosts.

(** The host of the most recent call for an address in a run of
    [add_host] calls, oldest first. *)
Definition last_added (a : Address) (added : list Host) : option Host :=
  find_host a (rev added).

Definition add_hosts (hosts : list Host) (added : list Host) : list Host :=
  fold_left add_host added hosts.

(** At most one entry per distinct address. *)
Definition unique_addresses (hosts : list Host) : Prop :=
  NoDup (address <$> hosts).

End Registry.

(* ===================================================================== *)
(** ** Host::set *)
(* ===================================================================== *)

(** Modelled from the spec: [Row] and [Value] are declared in row.hpp and
    value.hpp, which are not part of the sources; the spec describes a
    decoded row as a lookup of typed fields by name, a field being absent,
    null, or a value that has a string form and, when it is a collection,
    elements with a string form each. *)
Inductive Value : Type :=
| VNull
| VData (text : string) (elements : option (list string)).

Abbreviation Row := (gmap string Value).

Inductive Warning : Type :=
| InvalidReleaseVersion (text : string)
| InvalidDseVersion (text : string).

Module HostSet.

(** Modelled from the spec: [Row::get_by_name] is declared in row.hpp,
    which is not part of the sources; the spec describes it as a lookup
    by name that returns an optional value.  [None] is the NULL pointer. *)
Definition get_by_name (row : Row) (name : string) : option Value := row !! name.

(** Modelled from the spec: [Row::get_string_by_name] is declared in
    row.hpp, which is not part of the sources; the spec has the string of
    an absent field stay as it was (empty for rack and data center), so
    [out] is written only for a field that is present and not null. *)
Definition get_string_by_name (row : Row) (name : string) (out : string) : string :=
  match get_by_name row name with
  | Some (VData text _) => text
  | _ => out
  end.

(** Modelled from the spec: [Value::is_collection] and the iteration over
    a collection are declared in value.hpp and collection_iterator.hpp,
    which are not part of the sources; the spec has the string form of
    each element appended in iteration order. *)
Definition is_collection (v : Value) : bool :=
  match v with
  | VData _ (Some _) => true
  | _ => false
  end.

Definition collection_strings (v : Value) : list string :=
  match v with
  | VData _ (Some items) => items
  | _ => []
  end.

Definition with_server_version (v : VersionNumber) (h : Host) : Host :=
  mkHost (address h) (rack h) (dc h) v (dse_server_version h) (partitioner h) (tokens h).

Definition with_dse_server_version (v : VersionNumber) (h : Host) : Host :=
  mkHost (address h) (rack h) (dc h) (server_version h) v (partitioner h) (tokens h).

(** Lines 116-128: the release version is parsed into a local
    [VersionNumber] and copied to [server_version_] on success only. *)
Definition set_release_version (row : Row) (h : Host) : Host * list Warning :=
  let release_version := get_string_by_name row "release_version" "" in
  let '(ok, parsed) := Version.parse release_version Version.default in
  if ok then (with_server_version parsed h, [])
  else (h, [InvalidReleaseVersion release_version]).

(** Lines 130-147: the correction for DSE.  The DSE version is parsed in
    place, into the member [dse_server_version_]. *)
Definition correct_for_dse (row : Row) (h : Host) : Host * list Warning :=
  if Version.ge (server_version h) (mkVersion 4 0 0)
     && bool_decide (is_Some (get_by_name row "dse_version")) then
    let dse_version_str := get_string_by_name row "dse_version" "" in
    let '(ok, dse) := Version.parse dse_version_str (dse_server_version h) in
    let h1 := with_dse_server_version dse h in
    if ok then
      if Version.lt dse (mkVersion 6 7 0)
      then (with_server_version (mkVersion 3 11 0) h1, [])
      else (h1, [])
    else (h1, [InvalidDseVersion dse_version_str])
  else (h, []).

(** Lines 149-159: the partitioner, and the tokens when asked for. *)
Definition set_partitioner_and_tokens (row : Row) (use_tokens : bool) (h : Host) : Host :=
  let new_tokens :=
    if use_tokens then
      match get_by_name row "tokens" with
      | Some v => if is_collection v then collection_strings v else []
      | None => []
      end
    else [] in
  mkHost (address h) (rack h) (dc h) (server_version h) (dse_server_version h)
    (get_string_by_name row "partitioner" (partitioner h))
    (tokens h ++ new_tokens).

(** [Host::set] (lines 107-159).  The last step of the function (lines
    161-177) writes [rpc_address_] only, through an address decoder that is
    outside the sources; it is not part of the embedding. *)
Definition set (row : Row) (use_tokens : bool) (h : Host) : Host * list Warning :=
  let h0 :=
    mkHost (address h)
      (get_string_by_name row "rack" "")
      (get_string_by_name row "data_center" "")
      (server_version h) (dse_server_version h) (partitioner h) (tokens h) in
  let '(h1, w1) := set_release_version row h0 in
  let '(h2, w2) := correct_for_dse row h1 in
  (set_partitioner_and_tokens row use_tokens h2, w1 ++ w2).

End HostSet.

(* ===================================================================== *)
(** ** The connection marketplace *)
(* ===================================================================== *)

(** Modelled from the spec: [Connection] and [ExportedConnection] are
    declared in connection.hpp, which is not part of the sources; the spec
    describes a transport connection that exposes the shard it is bound
    to, and an exported connection as the exclusive owner of one
    connection, to be imported into an execution context before it is
    closed.  [conn_id] stands for the identity of the object. *)
Record Connection : Type := mkConnection {
  conn_id : Z;
  shard_id : Z
}.

Record ExportedConnection : Type := Export {
  exported : Connection
}.

#[global] Instance Connection_eq_dec : EqDecision Connection.
Proof. solve_decision. Defined.

#[global] Instance ExportedConnection_eq_dec : EqDecision ExportedConnection.
Proof. solve_decision. Defined.

(** What [c->import_connection(loop)->close()] does to the outside: the
    connection is attached to the loop, then closed there. *)
Inductive Event : Type :=
| Imported (loop : Z) (c : Connection)
| Closed (loop : Z) (c : Connection).

#[global] Instance Event_eq_dec : EqDecision Event.
Proof. solve_decision. Defined.

(** [unpooled_connections_per_shard_]: shard id to the list of
    connections held for it. *)
Abbreviation Marketplace := (gmap Z (list ExportedConnection)).

Module Market.

(** [Host::get_unpooled_connections] (lines 180-195).  [shard_id] and
    [how_many] are [int].  [std::next(begin, n)] with a negative [n] walks
    backwards from [begin()], which C++ leaves undefined: the embedding
    returns [None] there.  Otherwise the first [n] elements are spliced
    out of the shard's list, which stays in the map. *)
Definition get_unpooled_connections (shard how_many : Z) (m : Marketplace)
  : option (list ExportedConnection * Marketplace) :=
  match m !! shard with
  | None => Some ([], m)
  | Some [] => Some ([], m)
  | Some list_move_from =>
      let n := Z.min how_many (Int.to_int32 (Z.of_nat (length list_move_from))) in
      if n <? 0 then None
      else Some (take (Z.to_nat n) list_move_from,
                 <[shard := drop (Z.to_nat n) list_move_from]> m)
  end.

(** [Host::add_unpooled_connection] (lines 197-203): [operator[]] creates
    an empty list for a shard seen for the first time. *)
Definition add_unpooled_connection (conn : Connection) (m : Marketplace) : Marketplace :=
  <[shard_id conn := default [] (m !! shard_id conn) ++ [Export conn]]> m.

Definition close_events (loop : Z) (held : list ExportedConnection) : list Event :=
  c ← held; [Imported loop (exported c); Closed loop (exported c)].

(** [Host::close_unpooled_connections] (lines 205-214): every connection
    of every shard is imported and closed, and every list is cleared.
    The shards are visited in the iteration order of the container, which
    the sources do not fix (its declaration is in host.hpp); [map_to_list]
    stands for that order, and no statement below depends on it. *)
Definition close_unpooled_connections (loop : Z) (m : Marketplace)
  : list Event * Marketplace :=
  (kv ← map_to_list m; close_events loop (snd kv), (fun _ => []) <$> m).

(** The connections that a shard has on offer. *)
Definition available (m : Marketplace) (shard : Z) : list ExportedConnection :=
  default [] (m !! shard).

(** All the connections that the marketplace holds. *)
Definition held (m : Marketplace) : list ExportedConnection :=
  kv ← map_to_list m; snd kv.

(** Runs of [deposit] and [withdraw]. *)
Inductive Op : Type :=
| Deposit (conn : Connection)
| Withdraw (shard how_many : Z).

(** The total number of deposits to [shard] in a run. *)
Fixpoint deposited (shard : Z) (ops : list Op) : nat :=
  match ops with
  | [] => 0%nat
  | Deposit conn :: rest =>
      ((if decide (shard_id conn = shard) then 1 else 0) + deposited shard rest)%nat
  | Withdraw _ _ :: rest => deposited shard rest
  end.

(** The state after a run of operations and, for one shard, the number
    of connections that the withdrawals of the run handed out; [None]
    when a step is undefined. *)
Fixpoint run (shard : Z) (ops : list Op) (m : Marketplace) : option (Marketplace * nat) :=
  match ops with
  | [] => Some (m, 0%nat)
  | Deposit conn :: rest => run shard rest (add_unpooled_connection conn m)
  | Withdraw s how_many :: rest =>
      match get_unpooled_connections s how_many m with
      | None => None
      | Some (got, m') =>
          match run shard rest m' with
          | None => None
          | Some (m'', k) =>
              Some (m'', ((if decide (s = shard) then length got else 0) + k)%nat)
          end
      end
  end.

(** Every withdrawal of a run asks for a count that is not negative. *)
Definition counts_nonnegative (ops : list Op) : Prop :=
  Forall (fun o => match o with Withdraw _ how_many => 0 <= how_many | Deposit _ => True end) ops.

(** Every list of the marketplace can grow by [room] elements and still
    have a size that fits an [int]. *)
Definition sizes_fit_int (m : Marketplace) (room : nat) : Prop :=
  forall shard, Z.of_nat (length (available m shard) + room) <= Int.INT_MAX.

(** The connections that a trace imports, and the ones it closes, each
    with the loop involved. *)
Definition imported_in (events : list Event) : list (Z * Connection) :=
  omap (fun e => match e with Imported loop c => Some (loop, c) | Closed _ _ => None end) events.

Definition closed_in (events : list Event) : list (Z * Connection) :=
  omap (fun e => match e with Closed loop c => Some (loop, c) | Imported _ _ => None end) events.

End Market.

(* ===================================================================== *)
(** ** Shapes of texts and of marketplaces used in the statements *)
(* ===================================================================== *)

Module Text.

(** A text made of white space only, as [%d] skips it. *)
Fixpoint all_space (s : string) : bool :=
  match s with
  | EmptyString => true
  | String c t => Scan.is_space c && all_space t
  end.

(** The three components printed with dots between them. *)
Definition dotted (a b c : Z) : string :=
  pretty a +:+ "." +:+ pretty b +:+ "." +:+ pretty c.

Definition fits_int (z : Z) : Prop := Int.INT_MIN <= z <= Int.INT_MAX.

End Text.

Module MarketShape.

(** Every connection is filed under the shard that it is bound to. *)
Definition well_keyed (m : Marketplace) : Prop :=
  forall shard l, m !! shard = Some l ->
    Forall (fun c => shard_id (exported c) = shard) l.

(** A run of deposits, oldest first. *)
Definition deposit_all (conns : list Connection) (m : Marketplace) : Marketplace :=
  fold_left (fun acc conn => Market.add_unpooled_connection conn acc) conns m.

(** The connections of a run of deposits that go to one shard. *)
Definition bound_to (shard : Z) (conns : list Connection) : list ExportedConnection :=
  Export <$> filter (fun conn => shard_id conn = shard) conns.

End MarketShape.

Module HostShape.

(** The strings that lines 151-159 append to [tokens_] for a row: the
    elements of the field [tokens] when it is there and is a collection. *)
Definition row_tokens (row : Row) : list string :=
  match HostSet.get_by_name row "tokens" with
  | Some v => if HostSet.is_collection v then HostSet.collection_strings v else []
  | None => []
  end.

(** The version that [server_version_] holds after lines 122-128. *)
Definition release_or_stored (row : Row) (h : Host) : VersionNumber :=
  let result :=
    Version.parse (HostSet.get_string_by_name row "release_version" "") Version.default in
  if fst result then snd result else server_version h.

End HostShape.

(* ===================================================================== *)
(** ** The demo of the lock-free map: hashing and ordering of addresses *)
(* ===================================================================== *)

(** [boost::asio::ip::address] as [test/libcds_demo/main.cpp] uses it: a
    version 4 address of four bytes or a version 6 address of sixteen,
    both in network order, each byte an [unsigned char]. *)
Inductive ip_addr : Type :=
| AddrV4 (b1 b2 b3 b4 : Z)
| AddrV6 (bytes : list Z).

Module Demo.

Definition is_byte (b : Z) : Prop := 0 <= b < 256.

(** The addresses that the type can hold. *)
Definition well_formed (a : ip_addr) : Prop :=
  match a with
  | AddrV4 b1 b2 b3 b4 => is_byte b1 /\ is_byte b2 /\ is_byte b3 /\ is_byte b4
  | AddrV6 bytes => length bytes = 16%nat /\ Forall is_byte bytes
  end.

(** One turn of the loop of [get_hash] (main.cpp, lines 46-50) on an
    [unsigned long] of [w] bits: [hash = ((hash << 5) + hash) + *it]. *)
Definition hash_step (w : Z) (hash byte : Z) : Z :=
  Int.wrap_unsigned w
    (Int.wrap_unsigned w (Int.wrap_unsigned w (Z.shiftl hash 5) + hash) + byte).

(** [get_hash] (main.cpp, lines 38-53): djb2 over the bytes, from 5381. *)
Definition get_hash (w : Z) (ip_bytes : list Z) : Z :=
  fold_left (hash_step w) ip_bytes 5381.

(** [hash<address>::operator()] (main.cpp, lines 56-64). *)
Definition hash (w : Z) (a : ip_addr) : Z :=
  match a with
  | AddrV4 b1 b2 b3 b4 => get_hash w [b1; b2; b3; b4]
  | AddrV6 bytes => get_hash w bytes
  end.

(** [to_ip_v6] (main.cpp, lines 91-96): a version 4 address becomes the
    version 6 address [::ffff:b1.b2.b3.b4], which is what
    [address_v6::v4_mapped] of the library builds. *)
Definition to_ip_v6 (a : ip_addr) : list Z :=
  match a with
  | AddrV6 bytes => bytes
  | AddrV4 b1 b2 b3 b4 => [0; 0; 0; 0; 0; 0; 0; 0; 0; 0; 255; 255; b1; b2; b3; b4]
  end.

(** The loop of [less<address>::operator()] (main.cpp, lines 110-114):
    the first position where the bytes differ decides; equal arrays are
    not less. *)
Fixpoint less_bytes (first_bytes second_bytes : list Z) : bool :=
  match first_bytes, second_bytes with
  | x :: first_rest, y :: second_rest =>
      let delta := x - y in
      if negb (delta =? 0) then delta <? 0
      else less_bytes first_rest second_rest
  | _, _ => false
  end.

(** [less<address>::operator()] (main.cpp, lines 99-118). *)
Definition less (first second : ip_addr) : bool :=
  less_bytes (to_ip_v6 first) (to_ip_v6 second).

(** The argument of [ip4] in the macro [IP4] (main.cpp, line 122),
    computed on [unsigned int]. *)
Definition IP4_value (b1 b2 b3 b4 : Z) : Z :=
  let u := Int.wrap_unsigned 32 in
  u (u b4 + u (256 * u (u b3 + u (256 * u (u b2 + u (256 * u b1)))))).

(** [address_v4(value)] of the library: the four bytes of the value, most
    significant first. *)
Definition ip4 (value : Z) : ip_addr :=
  AddrV4 (Z.land (Z.shiftr value 24) 255) (Z.land (Z.shiftr value 16) 255)
         (Z.land (Z.shiftr value 8) 255) (Z.land value 255).

Definition IP4 (b1 b2 b3 b4 : Z) : ip_addr := ip4 (IP4_value b1 b2 b3 b4).

End Demo.

(* ===================================================================== *)
(** ** Sample values *)
(* ===================================================================== *)

Module Sample.

Definition host (ip : string) (rack_name : string) : Host :=
  mkHost (mkAddress ip 9042) rack_name "dc1" Version.default Version.default "" [].

Definition hosts : list Host := [host "10.0.0.1" "r1"; host "10.0.0.2" "r1"].

Definition conn (id shard : Z) : ExportedConnection := Export (mkConnection id shard).

Definition market : Marketplace :=
  {[ 0 := [conn 1 0; conn 2 0; conn 3 0]; 1 := [conn 4 1] ]}.

End Sample.

(* ===================================================================== *)
(** ** Facts about fixed-width integers *)
(* ===================================================================== *)

Lemma to_int32_small z : Int.INT_MIN <= z <= Int.INT_MAX -> Int.to_int32 z = z.
Proof.
  unfold Int.INT_MIN, Int.INT_MAX, Int.to_int32, Int.wrap_signed. intros Hz.
  change (2 ^ 32) with 4294967296. change (2 ^ (32 - 1)) with 2147483648.
  destruct (Z_lt_le_dec z 0) as [Hneg|Hpos].
  - replace (z mod 4294967296) with (z + 4294967296).
    + destruct (Z.ltb_spec (z + 4294967296) 2147483648); lia.
    + apply Z.mod_unique with (q := -1); lia.
  - rewrite Z.mod_small by lia.
    destruct (Z.ltb_spec z 2147483648); lia.
Qed.

Lemma to_uint64_small z : 0 <= z < 2 ^ 64 -> Int.to_uint64 z = z.
Proof. intros Hz. unfold Int.to_uint64, Int.wrap_unsigned. now apply Z.mod_small. Qed.

(* ===================================================================== *)
(** ** VersionNumber::parse *)
(* ===================================================================== *)

Example parse_3_11_5 :
  Version.parse "3.11.5" Version.default = (true, mkVersion 3 11 5).
Proof. reflexivity. Qed.

Example parse_not_a_version :
  Version.parse "not-a-version" (mkVersion 1 2 3) = (false, mkVersion 1 2 3).
Proof. reflexivity. Qed.

Example parse_signs_and_spaces :
  Version.parse " -3. +11.x" Version.default = (true, mkVersion (-3) 11 0).
Proof. reflexivity. Qed.

(** [sscanf] never returns more than the count of destinations it wrote,
    and leaves alone the ones it did not reach. *)
Lemma sscanf_untouched text a b c n a' b' c' :
  Scan.sscanf_d_d_d text a b c = (n, (a', b', c')) ->
  (n < 3 -> c' = c) /\ (n < 2 -> b' = b) /\ (n < 1 -> a' = a).
Proof.
  unfold Scan.sscanf_d_d_d, Scan.EOF.
  repeat case_match; intros [= <- <- <- <-]; repeat split; intros; (reflexivity || lia).
Qed.

(** C2, as the code has it.  When [parse] returns false, the minor and the
    patch component keep their prior value; the major component keeps it
    only if the text does not start with an integer, and holds that
    integer otherwise. *)
Theorem parse_failure_keeps_minor_and_patch (text : string) (v : VersionNumber) :
  fst (Version.parse text v) = false ->
  minor_version (snd (Version.parse text v)) = minor_version v /\
  patch_version (snd (Version.parse text v)) = patch_version v /\
  match Scan.scan_int (Scan.c_str text) with
  | Scan.Converted first _ => major_version (snd (Version.parse text v)) = first
  | _ => snd (Version.parse text v) = v
  end.
Proof.
  unfold Version.parse, Scan.sscanf_d_d_d, Scan.EOF. destruct v as [a b c]. simpl.
  repeat case_match; simplify_eq/=; intros Hn; try discriminate; auto.
Qed.

Lemma parse_failure_keeps_minor_and_patch_witness :
  minor_version (snd (Version.parse "4.x" (mkVersion 1 2 3))) = 2 /\
  patch_version (snd (Version.parse "4.x" (mkVersion 1 2 3))) = 3 /\
  major_version (snd (Version.parse "4.x" (mkVersion 1 2 3))) = 4.
Proof.
  apply (parse_failure_keeps_minor_and_patch "4.x" (mkVersion 1 2 3)). reflexivity.
Defined.

(** C2 as stated fails: ["4.x"] is rejected, yet the major component of
    the instance has been overwritten. *)
Lemma parse_failure_overwrites_major :
  fst (Version.parse "4.x" (mkVersion 1 2 3)) = false /\
  snd (Version.parse "4.x" (mkVersion 1 2 3)) = mkVersion 4 2 3 /\
  snd (Version.parse "4.x" (mkVersion 1 2 3)) <> mkVersion 1 2 3.
Proof. repeat split. discriminate. Qed.

(** *** Scanning a printed number *)

Lemma string_app_empty_r (s : string) : s +:+ "" = s.
Proof.
  induction s as [|c t IH]; [reflexivity|].
  unfold String.app in *. simpl. now rewrite IH.
Qed.

Lemma c_str_no_nul s : Scan.no_nul s = true -> Scan.c_str s = s.
Proof.
  induction s as [|c t IH]; simpl; [reflexivity|].
  destruct (Ascii.eqb c Ascii.zero); simpl; [discriminate|].
  intros Ht. now rewrite IH.
Qed.

Lemma no_nul_app s r : Scan.no_nul (s +:+ r) = Scan.no_nul s && Scan.no_nul r.
Proof.
  induction s as [|c t IH]; simpl; [reflexivity|].
  now rewrite <- andb_assoc, <- IH.
Qed.

Lemma digit_value_pretty_char (d : N) :
  (d < 10)%N -> Scan.digit_value (pretty_N_char d) = Some (Z.of_N d).
Proof.
  intros Hd.
  assert (d = 0 \/ d = 1 \/ d = 2 \/ d = 3 \/ d = 4 \/ d = 5 \/ d = 6 \/ d = 7
          \/ d = 8 \/ d = 9)%N as Hcases by lia.
  repeat (destruct Hcases as [->|Hcases]; [reflexivity|]). now subst d.
Qed.

Lemma pretty_char_not_nul (d : N) : Ascii.eqb (pretty_N_char d) Ascii.zero = false.
Proof. unfold pretty_N_char. repeat case_match; reflexivity. Qed.

Lemma pretty_N_go_app (x : N) : forall s r, pretty_N_go x s +:+ r = pretty_N_go x (s +:+ r).
Proof.
  induction (N.lt_wf_0 x) as [x _ IH]. intros s r.
  destruct (N.eq_dec x 0%N) as [->|Hx]; [now rewrite !pretty_N_go_0|].
  rewrite (pretty_N_go_step x s), (pretty_N_go_step x (s +:+ r)) by lia.
  rewrite IH by (apply N.div_lt; lia). reflexivity.
Qed.

Lemma pretty_N_go_no_nul (x : N) : forall s, Scan.no_nul (pretty_N_go x s) = Scan.no_nul s.
Proof.
  induction (N.lt_wf_0 x) as [x _ IH]. intros s.
  destruct (N.eq_dec x 0%N) as [->|Hx]; [now rewrite pretty_N_go_0|].
  rewrite pretty_N_go_step by lia. rewrite IH by (apply N.div_lt; lia).
  simpl. now rewrite pretty_char_not_nul.
Qed.

Lemma pretty_N_go_scan (x : N) :
  forall s, Scan.scan_digits 0 (pretty_N_go x s) = Scan.scan_digits (Z.of_N x) s.
Proof.
  induction (N.lt_wf_0 x) as [x _ IH]. intros s.
  destruct (N.eq_dec x 0%N) as [->|Hx]; [now rewrite pretty_N_go_0|].
  rewrite pretty_N_go_step by lia. rewrite IH by (apply N.div_lt; lia).
  simpl. rewrite digit_value_pretty_char by (apply N.mod_lt; lia).
  f_equal. rewrite (N.div_mod x 10) at 3 by lia. lia.
Qed.

Lemma pretty_N_go_starts_with_digit (x : N) :
  forall s, Scan.starts_with_digit s = true ->
            Scan.starts_with_digit (pretty_N_go x s) = true.
Proof.
  induction (N.lt_wf_0 x) as [x _ IH]. intros s Hs.
  destruct (N.eq_dec x 0%N) as [->|Hx]; [now rewrite pretty_N_go_0|].
  rewrite pretty_N_go_step by lia. apply IH; [apply N.div_lt; lia|].
  simpl. now rewrite digit_value_pretty_char by (apply N.mod_lt; lia).
Qed.

(** The printed form of a natural number, followed by any text [r]. *)
Lemma pretty_N_shape (x : N) (r : string) :
  exists s, pretty x +:+ r = s /\
            Scan.starts_with_digit s = true /\
            Scan.scan_digits 0 s = Scan.scan_digits (Z.of_N x) r /\
            Scan.no_nul s = Scan.no_nul r.
Proof.
  eexists; split; [reflexivity|]. unfold pretty, pretty_N.
  destruct (decide (x = 0%N)) as [->|Hx]; [now repeat split|].
  rewrite pretty_N_go_app. change ("" +:+ r) with r.
  split; [|split; [apply pretty_N_go_scan | apply pretty_N_go_no_nul]].
  rewrite pretty_N_go_step by lia.
  apply pretty_N_go_starts_with_digit. simpl.
  now rewrite digit_value_pretty_char by (apply N.mod_lt; lia).
Qed.

Lemma digit_value_range c d :
  Scan.digit_value c = Some d -> 48 <= Z.of_nat (nat_of_ascii c) <= 57.
Proof.
  unfold Scan.digit_value.
  destruct (Z.leb_spec 48 (Z.of_nat (nat_of_ascii c))),
           (Z.leb_spec (Z.of_nat (nat_of_ascii c)) 57); simpl; try discriminate.
  lia.
Qed.

Lemma pretty_no_nul (x : N) : Scan.no_nul (pretty x) = true.
Proof.
  unfold pretty, pretty_N. destruct (decide (x = 0%N)); [reflexivity|].
  now rewrite pretty_N_go_no_nul.
Qed.

Lemma scan_int_digit s :
  Scan.starts_with_digit s = true -> Scan.scan_int s = Scan.scan_unsigned false s.
Proof.
  destruct s as [|c t]; [discriminate|]. simpl.
  destruct (Scan.digit_value c) as [d|] eqn:Hd; [intros _|discriminate].
  apply digit_value_range in Hd.
  unfold Scan.scan_int. simpl. unfold Scan.is_space.
  replace (Z.of_nat (nat_of_ascii c) =? 32) with false
    by (symmetry; apply Z.eqb_neq; lia).
  replace (Z.of_nat (nat_of_ascii c) <=? 13) with false
    by (symmetry; apply Z.leb_gt; lia).
  rewrite andb_false_r. simpl.
  destruct (Ascii.eqb_spec c "-") as [->|_];
    [change (nat_of_ascii "-") with 45%nat in Hd; lia|].
  destruct (Ascii.eqb_spec c "+") as [->|_];
    [change (nat_of_ascii "+") with 43%nat in Hd; lia|].
  reflexivity.
Qed.

(** [%d] on a printed natural number that fits an [int] reads the number
    back, and stops at the first character that is not a digit. *)
Lemma scan_int_pretty (x : N) (r : string) :
  Z.of_N x <= Int.INT_MAX ->
  Scan.starts_with_digit r = false ->
  Scan.scan_int (pretty x +:+ r) = Scan.Converted (Z.of_N x) r.
Proof.
  intros Hx Hr. destruct (pretty_N_shape x r) as (s & -> & Hd & Hs & _).
  rewrite scan_int_digit by assumption. unfold Scan.scan_unsigned.
  rewrite Hd, Hs.
  assert (Scan.scan_digits (Z.of_N x) r = (Z.of_N x, r)) as ->.
  { destruct r as [|c t]; [reflexivity|]. simpl in *.
    destruct (Scan.digit_value c); [discriminate|reflexivity]. }
  rewrite to_int32_small; [reflexivity|]. unfold Int.INT_MIN. lia.
Qed.

Example parse_3_11_default :
  Version.parse "3.11" Version.default = (true, mkVersion 3 11 0).
Proof. reflexivity. Qed.

(** C7, as the code has it.  On the text [major.minor], [parse] returns
    true and stores the two numbers; the patch component is not written
    and keeps its prior value, which is 0 for a default-constructed
    instance: ["3.11"] gives (3,11,0) there. *)
Theorem parse_major_minor (major minor : N) (v : VersionNumber) :
  Z.of_N major <= Int.INT_MAX ->
  Z.of_N minor <= Int.INT_MAX ->
  Version.parse (pretty major +:+ "." +:+ pretty minor) v
    = (true, mkVersion (Z.of_N major) (Z.of_N minor) (patch_version v)) /\
  Version.parse (pretty major +:+ "." +:+ pretty minor) Version.default
    = (true, mkVersion (Z.of_N major) (Z.of_N minor) 0).
Proof.
  intros Hmajor Hminor.
  assert (forall w, Version.parse (pretty major +:+ "." +:+ pretty minor) w
            = (true, mkVersion (Z.of_N major) (Z.of_N minor) (patch_version w))) as Hparse.
  { intros w. unfold Version.parse.
    rewrite c_str_no_nul by (rewrite !no_nul_app, !pretty_no_nul; reflexivity).
    unfold Scan.sscanf_d_d_d.
    rewrite scan_int_pretty by (assumption || reflexivity).
    change (Scan.scan_dot ("." +:+ pretty minor)) with (Some (pretty minor)).
    cbv iota beta.
    rewrite <- (string_app_empty_r (pretty minor)).
    rewrite scan_int_pretty by (assumption || reflexivity). reflexivity. }
  split; [apply Hparse|]. rewrite Hparse. reflexivity.
Qed.

Lemma parse_major_minor_witness :
  Version.parse "3.11" (mkVersion 1 2 5) = (true, mkVersion 3 11 5) /\
  Version.parse "3.11" Version.default = (true, mkVersion 3 11 0).
Proof.
  apply (parse_major_minor 3 11 (mkVersion 1 2 5)); unfold Int.INT_MAX; simpl; lia.
Defined.

(** C7 as stated fails on an instance whose patch component is not 0:
    ["3.11"] leaves (3,11,5) in an instance that held (1,2,5). *)
Lemma stale_patch_survives_parse :
  Version.parse "3.11" (mkVersion 1 2 5) = (true, mkVersion 3 11 5) /\
  patch_version (snd (Version.parse "3.11" (mkVersion 1 2 5))) <> 0.
Proof. split; [reflexivity|discriminate]. Qed.

(* ===================================================================== *)
(** ** LatencyTracker::update *)
(* ===================================================================== *)

Lemma to_int64_signed z : - 2 ^ 63 <= z < 2 ^ 63 -> Int.to_int64 z = z.
Proof.
  unfold Int.to_int64, Int.wrap_signed. intros Hz.
  change (2 ^ (64 - 1)) with (2 ^ 63).
  assert (2 ^ 64 = 2 * 2 ^ 63) as Hpow by reflexivity.
  destruct (Z_lt_le_dec z 0) as [Hneg|Hpos].
  - replace (z mod 2 ^ 64) with (z + 2 ^ 64)
      by (apply Z.mod_unique with (q := -1); lia).
    destruct (Z.ltb_spec (z + 2 ^ 64) (2 ^ 63)); lia.
  - rewrite Z.mod_small by lia.
    destruct (Z.ltb_spec z (2 ^ 63)); lia.
Qed.

Section TrackerFacts.

Variable decayed_average : Z -> Z -> Z -> Z -> Z.

Let update := Tracker.update decayed_average.
Let updates := Tracker.updates decayed_average.

(** [update] never touches the configuration of the tracker. *)
Lemma update_config now latency_ns t :
  scale_ns (update now latency_ns t) = scale_ns t /\
  threshold_to_account (update now latency_ns t) = threshold_to_account t.
Proof.
  unfold update, Tracker.update. repeat case_match; split; reflexivity.
Qed.

(** One call during warm-up: the sample is counted and the average is
    set to -1. *)
Lemma update_warming_up now latency_ns t :
  0 <= num_measured (current t) < threshold_to_account t ->
  threshold_to_account t < 2 ^ 64 ->
  average (current (update now latency_ns t)) = -1 /\
  num_measured (current (update now latency_ns t)) = num_measured (current t) + 1.
Proof.
  intros Hn HT. unfold update, Tracker.update.
  destruct (Z.ltb_spec (num_measured (current t)) (threshold_to_account t)); [|lia].
  simpl. split; [reflexivity|]. apply to_uint64_small. lia.
Qed.


(** A run of calls that stays within the warm-up. *)
Lemma updates_warming_up calls : forall t,
  0 <= num_measured (current t) ->
  average (current t) = -1 ->
  num_measured (current t) + Z.of_nat (length calls) <= threshold_to_account t ->
  threshold_to_account t < 2 ^ 64 ->
  average (current (updates calls t)) = -1 /\
  num_measured (current (updates calls t))
    = num_measured (current t) + Z.of_nat (length calls) /\
  threshold_to_account (updates calls t) = threshold_to_account t.
Proof.
  induction calls as [|[now latency_ns] calls IH]; intros t Hn Havg Hlen HT.
  - simpl. repeat split; [assumption|lia].
  - change (updates ((now, latency_ns) :: calls) t)
      with (updates calls (update now latency_ns t)).
    rewrite length_cons, Nat2Z.inj_succ in Hlen |- *.
    destruct (update_warming_up now latency_ns t) as [Havg' Hn']; [lia|lia|].
    destruct (update_config now latency_ns t) as [_ Hthr].
    assert (0 <= num_measured (current (update now latency_ns t))) as Hn0 by lia.
    assert (num_measured (current (update now latency_ns t)) + Z.of_nat (length calls)
            <= threshold_to_account (update now latency_ns t)) as Hlen0 by lia.
    assert (threshold_to_account (update now latency_ns t) < 2 ^ 64) as HT0 by lia.
    destruct (IH (update now latency_ns t) Hn0 Havg' Hlen0 HT0) as (IH1 & IH2 & IH3).
    repeat split; [exact IH1|lia|congruence].
Qed.

End TrackerFacts.

Lemma to_int64_of_uint64 z :
  0 <= z < 2 ^ 64 -> Int.to_int64 z = if z <? 2 ^ 63 then z else z - 2 ^ 64.
Proof.
  intros Hz. unfold Int.to_int64, Int.wrap_signed.
  change (2 ^ (64 - 1)) with (2 ^ 63). now rewrite Z.mod_small.
Qed.

(** C1, as the code has it.  With [threshold_to_account = T], the average
    reads -1 after any number of calls up to and including [T].  The next
    call stores its sample as the average exactly when [T] calls came
    before it, which makes it call number [T + 1]; after fewer calls it
    stores -1 again.  The sample is a [uint64_t] stored into an
    [int64_t]: below [2^63] it is stored as it is. *)
Theorem warm_up
    (decayed_average : Z -> Z -> Z -> Z -> Z)
    (scale T : Z) (calls : list (Z * Z)) (now latency_ns : Z) :
  0 <= T < 2 ^ 64 ->
  Z.of_nat (length calls) <= T ->
  0 <= latency_ns < 2 ^ 64 ->
  let t := Tracker.updates decayed_average calls (Tracker.create scale T) in
  let t' := Tracker.update decayed_average now latency_ns t in
  Tracker.get_average t = -1 /\
  num_measured (current t) = Z.of_nat (length calls) /\
  Tracker.get_average t' =
    if Z.of_nat (length calls) =? T
    then (if latency_ns <? 2 ^ 63 then latency_ns else latency_ns - 2 ^ 64)
    else -1.
Proof.
  intros HT Hlen Hlat t t'.
  destruct (updates_warming_up decayed_average calls (Tracker.create scale T))
    as (Havg & Hn & Hthr); simpl; try (reflexivity || lia).
  fold t in Havg, Hn, Hthr. simpl in Hn, Hthr.
  unfold Tracker.get_average.
  rewrite Z.add_0_l in Hn.
  split; [exact Havg|]. split; [exact Hn|].
  subst t'. unfold Tracker.update. rewrite Hthr, Havg, Hn.
  destruct (Z.eqb_spec (Z.of_nat (length calls)) T) as [->|Hne].
  - rewrite Z.ltb_irrefl. simpl. now apply to_int64_of_uint64.
  - destruct (Z.ltb_spec (Z.of_nat (length calls)) T); [reflexivity|lia].
Qed.

Lemma warm_up_witness :
  let d := fun _ _ _ _ : Z => 0 in
  let t := Tracker.updates d [(10, 100); (20, 200)] (Tracker.create 1000 2) in
  let t' := Tracker.update d 30 300 t in
  Tracker.get_average t = -1 /\
  num_measured (current t) = 2 /\
  Tracker.get_average t' = 300.
Proof.
  apply (warm_up (fun _ _ _ _ => 0) 1000 2 [(10, 100); (20, 200)] 30 300).
  - split; [lia|reflexivity].
  - simpl. lia.
  - split; [lia|reflexivity].
Defined.

(** C1 as stated fails: with a threshold of 1, the first call is the
    threshold-th one and the average before it is undefined, yet the call
    does not store its sample; the average is still -1 once one
    measurement, which is not fewer than the threshold, has been recorded. *)
Lemma threshold_th_sample_is_not_stored :
  let d := fun _ _ _ _ : Z => 0 in
  let t := Tracker.update d 10 100 (Tracker.create 1000 1) in
  Tracker.get_average (Tracker.create 1000 1) = -1 /\
  Tracker.get_average t = -1 /\
  Tracker.get_average t <> 100 /\
  num_measured (current t) = 1.
Proof. repeat split. discriminate. Qed.

(** C6, as the code has it.  The delay is looked at only past the warm-up
    and with a defined average; there, a clock value that is not later
    than the stored timestamp, and less than [2^63] before it, makes
    [update] return without any change to the tracker. *)
Theorem clock_anomaly_discards_sample
    (decayed_average : Z -> Z -> Z -> Z -> Z)
    (now latency_ns : Z) (t : LatencyTracker) :
  threshold_to_account t <= num_measured (current t) ->
  0 <= average (current t) ->
  timestamp (current t) - 2 ^ 63 <= now <= timestamp (current t) ->
  Tracker.update decayed_average now latency_ns t = t.
Proof.
  intros Hwarm Havg Hnow. unfold Tracker.update.
  destruct (Z.ltb_spec (num_measured (current t)) (threshold_to_account t)); [lia|].
  destruct (Z.ltb_spec (average (current t)) 0); [lia|].
  rewrite to_int64_signed by lia.
  destruct (Z.leb_spec (now - timestamp (current t)) 0); [reflexivity|lia].
Qed.

Lemma clock_anomaly_discards_sample_witness :
  Tracker.update (fun _ _ _ _ => 0) 50 9 (mkTracker 1000 2 (mkAverage 7 100 3))
    = mkTracker 1000 2 (mkAverage 7 100 3).
Proof.
  apply (clock_anomaly_discards_sample (fun _ _ _ _ => 0) 50 9
           (mkTracker 1000 2 (mkAverage 7 100 3))); simpl; lia.
Defined.

(** C6 as stated fails during warm-up: the second call reads a clock
    value that is earlier than the stored timestamp, and still counts its
    sample and moves the timestamp. *)
Lemma clock_anomaly_during_warm_up_mutates :
  let d := fun _ _ _ _ : Z => 0 in
  let t1 := Tracker.update d 100 7 (Tracker.create 1000 2) in
  let t2 := Tracker.update d 50 9 t1 in
  timestamp (current t1) = 100 /\ num_measured (current t1) = 1 /\
  timestamp (current t2) = 50 /\ num_measured (current t2) = 2 /\
  current t2 <> current t1.
Proof. repeat split. discriminate. Qed.

(* ===================================================================== *)
(** ** The host registry: add_host and remove_host *)
(* ===================================================================== *)

Section RegistryFacts.

Import Registry.

Implicit Types (hosts added : list Host) (host h : Host) (a : Address).

Lemma add_host_absent hosts host :
  address host ∉ address <$> hosts -> add_host hosts host = hosts ++ [host].
Proof.
  induction hosts as [|h rest IH]; simpl; [reflexivity|].
  rewrite not_elem_of_cons. intros [Hne Hrest].
  destruct (decide (address h = address host)); [congruence|].
  now rewrite IH.
Qed.

Lemma add_host_replaces front old back host :
  address old = address host ->
  address host ∉ address <$> front ->
  add_host (front ++ old :: back) host = front ++ host :: back.
Proof.
  intros Hold. induction front as [|h rest IH]; simpl.
  - intros _. destruct (decide (address old = address host)); [reflexivity|contradiction].
  - rewrite not_elem_of_cons. intros [Hne Hrest].
    destruct (decide (address h = address host)); [congruence|].
    now rewrite IH.
Qed.

Lemma add_host_addresses hosts host :
  address <$> add_host hosts host =
  if decide (address host ∈ address <$> hosts)
  then address <$> hosts
  else (address <$> hosts) ++ [address host].
Proof.
  induction hosts as [|h rest IH]; cbn [add_host].
  - destruct (decide (address host ∈ address <$> [])) as [Hin|_];
      [inversion Hin|reflexivity].
  - rewrite (fmap_cons address h rest).
    destruct (decide (address h = address host)) as [Heq|Hne].
    + rewrite decide_True by (rewrite Heq; left).
      rewrite fmap_cons. now rewrite Heq.
    + rewrite fmap_cons, IH.
      destruct (decide (address host ∈ address <$> rest)) as [Hin|Hout].
      * rewrite decide_True by now right. reflexivity.
      * rewrite decide_False; [reflexivity|].
        rewrite elem_of_cons. intros [?|?]; congruence.
Qed.

Lemma add_host_unique hosts host :
  unique_addresses hosts -> unique_addresses (add_host hosts host).
Proof.
  unfold unique_addresses. rewrite add_host_addresses. intros Hnd.
  destruct (decide (address host ∈ address <$> hosts)) as [Hin|Hout]; [assumption|].
  apply NoDup_app. repeat split; [assumption| |apply NoDup_singleton].
  intros x Hx ->%list_elem_of_singleton. contradiction.
Qed.

Lemma add_hosts_unique added : forall hosts,
  unique_addresses hosts -> unique_addresses (add_hosts hosts added).
Proof.
  induction added as [|x added IH]; intros hosts Hu; [exact Hu|].
  apply IH, add_host_unique, Hu.
Qed.

Lemma find_host_add_host a hosts host :
  find_host a (add_host hosts host) =
  if decide (address host = a) then Some host else find_host a hosts.
Proof.
  unfold find_host. induction hosts as [|h rest IH]; simpl.
  - destruct (decide (address host = a)) as [Heq|Hne].
    + now rewrite bool_decide_eq_true_2.
    + now rewrite bool_decide_eq_false_2.
  - destruct (decide (address h = address host)) as [Heq|Hne]; simpl.
    + destruct (decide (address host = a)) as [Ha|Ha].
      * now rewrite bool_decide_eq_true_2.
      * rewrite !bool_decide_eq_false_2 by congruence. reflexivity.
    + rewrite IH. destruct (decide (address host = a)) as [Ha|Ha].
      * rewrite bool_decide_eq_false_2 by congruence. reflexivity.
      * reflexivity.
Qed.

Lemma find_host_app a front back :
  find_host a (front ++ back) =
  match find_host a front with
  | Some h => Some h
  | None => find_host a back
  end.
Proof.
  unfold find_host. induction front as [|h rest IH]; simpl; [reflexivity|].
  destruct (bool_decide (address h = a)); [reflexivity|exact IH].
Qed.

(** After a run of [add_host] calls, a scan for an address meets the host
    of the most recent call for it, or the entry that was there before
    the run when no call had that address. *)
Lemma find_host_add_hosts a added : forall hosts,
  find_host a (add_hosts hosts added) =
  match last_added a added with
  | Some h => Some h
  | None => find_host a hosts
  end.
Proof.
  unfold last_added.
  induction added as [|x added IH]; intros hosts; [reflexivity|].
  change (add_hosts hosts (x :: added)) with (add_hosts (add_host hosts x) added).
  rewrite IH. simpl rev. rewrite find_host_app.
  destruct (find_host a (rev added)); [reflexivity|].
  rewrite find_host_add_host. unfold find_host. simpl.
  destruct (decide (address x = a)) as [Ha|Ha].
  - now rewrite bool_decide_eq_true_2.
  - now rewrite bool_decide_eq_false_2.
Qed.

Lemma find_host_Some a hosts h :
  find_host a hosts = Some h -> h ∈ hosts /\ address h = a.
Proof.
  unfold find_host. intros Hfind. apply find_some in Hfind as [Hin Hdec].
  apply bool_decide_eq_true_1 in Hdec. split; [|exact Hdec].
  now apply list_elem_of_In.
Qed.

(** In a collection with unique addresses, the entry that a scan meets
    is the only entry for its address. *)
Lemma find_host_only a hosts h h' :
  unique_addresses hosts ->
  find_host a hosts = Some h ->
  h' ∈ hosts -> address h' = a -> h' = h.
Proof.
  unfold unique_addresses, find_host.
  induction hosts as [|x rest IH]; simpl; [discriminate|].
  rewrite NoDup_cons. intros [Hx Hnd].
  destruct (decide (address x = a)) as [Ha|Ha].
  - rewrite bool_decide_eq_true_2 by assumption. intros [= ->].
    rewrite elem_of_cons. intros [->|Hin] Hh'; [reflexivity|].
    exfalso. apply Hx. rewrite Ha, <- Hh'. now apply list_elem_of_fmap_2.
  - rewrite bool_decide_eq_false_2 by assumption. intros Hfind.
    rewrite elem_of_cons. intros [->|Hin] Hh'; [contradiction|].
    now apply IH.
Qed.

Lemma remove_host_absent hosts a :
  a ∉ address <$> hosts -> remove_host hosts a = (false, hosts).
Proof.
  induction hosts as [|h rest IH]; simpl; [reflexivity|].
  rewrite not_elem_of_cons. intros [Hne Hrest].
  destruct (decide (address h = a)); [congruence|].
  now rewrite IH.
Qed.

Lemma remove_host_erases front old back a :
  address old = a ->
  a ∉ address <$> front ->
  remove_host (front ++ old :: back) a = (true, front ++ back).
Proof.
  intros Hold. induction front as [|h rest IH]; simpl.
  - intros _. destruct (decide (address old = a)); [reflexivity|contradiction].
  - rewrite not_elem_of_cons. intros [Hne Hrest].
    destruct (decide (address h = a)); [congruence|].
    now rewrite IH.
Qed.

Lemma unique_addresses_split front old back :
  unique_addresses (front ++ old :: back) ->
  (address old ∉ address <$> front) /\ (address old ∉ address <$> back).
Proof.
  unfold unique_addresses. rewrite fmap_app, fmap_cons, NoDup_app, NoDup_cons.
  intros (_ & Hfront & Hold & _). split; [|exact Hold].
  intros Hin. apply (Hfront _ Hin). left.
Qed.

End RegistryFacts.

(** C3.  In a collection with at most one entry per address: any run of
    [add_host] calls keeps at most one entry per address, and the entry
    for the address of a call is the host of the most recent call with
    that address; one call replaces the matching slot in place, or
    appends when no slot matches; [remove_host] on an absent address
    returns false and changes nothing, and on a present address erases
    the entry and returns true. *)
Theorem registry_uniqueness (hosts added front back : list Host) (old host : Host)
    (a : Address) :
  Registry.unique_addresses hosts ->
  Registry.unique_addresses (Registry.add_hosts hosts added) /\
  (forall h, Registry.last_added a added = Some h ->
     h ∈ Registry.add_hosts hosts added /\
     forall h', h' ∈ Registry.add_hosts hosts added -> address h' = a -> h' = h) /\
  (hosts = front ++ old :: back -> address old = address host ->
     Registry.add_host hosts host = front ++ host :: back) /\
  (address host ∉ address <$> hosts ->
     Registry.add_host hosts host = hosts ++ [host]) /\
  (a ∉ address <$> hosts -> Registry.remove_host hosts a = (false, hosts)) /\
  (hosts = front ++ old :: back -> address old = a ->
     Registry.remove_host hosts a = (true, front ++ back) /\
     a ∉ address <$> (front ++ back)).
Proof.
  intros Hu.
  pose proof (add_hosts_unique added hosts Hu) as Hu'.
  split; [exact Hu'|]. split; [|split; [|split; [|split]]].
  - intros h Hlast.
    pose proof (find_host_add_hosts a added hosts) as Hfind. rewrite Hlast in Hfind.
    split; [apply (find_host_Some a), Hfind|].
    intros h' Hin Ha. now apply (find_host_only a (Registry.add_hosts hosts added)).
  - intros -> Hold. apply add_host_replaces; [exact Hold|].
    rewrite <- Hold. now apply unique_addresses_split in Hu.
  - apply add_host_absent.
  - apply remove_host_absent.
  - intros -> Hold. apply unique_addresses_split in Hu as [Hfront Hback].
    rewrite Hold in Hfront, Hback. split.
    + now apply remove_host_erases.
    + rewrite fmap_app, elem_of_app. tauto.
Qed.

Lemma registry_uniqueness_witness :
  let added := [Sample.host "10.0.0.3" "r2"; Sample.host "10.0.0.1" "r7"] in
  let a := mkAddress "10.0.0.1" 9042 in
  let front := [] in
  let old := Sample.host "10.0.0.1" "r1" in
  let back := [Sample.host "10.0.0.2" "r1"] in
  let host := Sample.host "10.0.0.1" "r9" in
  Registry.unique_addresses (Registry.add_hosts Sample.hosts added) /\
  (forall h, Registry.last_added a added = Some h ->
     h ∈ Registry.add_hosts Sample.hosts added /\
     forall h', h' ∈ Registry.add_hosts Sample.hosts added -> address h' = a -> h' = h) /\
  (Sample.hosts = front ++ old :: back -> address old = address host ->
     Registry.add_host Sample.hosts host = front ++ host :: back) /\
  (address host ∉ address <$> Sample.hosts ->
     Registry.add_host Sample.hosts host = Sample.hosts ++ [host]) /\
  (a ∉ address <$> Sample.hosts -> Registry.remove_host Sample.hosts a = (false, Sample.hosts)) /\
  (Sample.hosts = front ++ old :: back -> address old = a ->
     Registry.remove_host Sample.hosts a = (true, front ++ back) /\
     a ∉ address <$> (front ++ back)).
Proof.
  apply (registry_uniqueness Sample.hosts
           [Sample.host "10.0.0.3" "r2"; Sample.host "10.0.0.1" "r7"]
           [] [Sample.host "10.0.0.2" "r1"] (Sample.host "10.0.0.1" "r1")
           (Sample.host "10.0.0.1" "r9") (mkAddress "10.0.0.1" 9042)).
  unfold Registry.unique_addresses.
  apply (bool_decide_unpack (NoDup (address <$> Sample.hosts))). vm_compute. exact I.
Defined.

Example add_hosts_sample :
  Registry.add_hosts Sample.hosts
    [Sample.host "10.0.0.3" "r2"; Sample.host "10.0.0.1" "r7"]
  = [Sample.host "10.0.0.1" "r7"; Sample.host "10.0.0.2" "r1"; Sample.host "10.0.0.3" "r2"].
Proof. reflexivity. Qed.

(* ===================================================================== *)
(** ** Host::set: the release version and the correction for DSE *)
(* ===================================================================== *)

Section HostSetFacts.

Import HostSet.

Lemma server_version_set row use_tokens h :
  server_version (fst (set row use_tokens h)) =
  server_version
    (fst (correct_for_dse row
            (fst (set_release_version row
                    (mkHost (address h)
                       (get_string_by_name row "rack" "")
                       (get_string_by_name row "data_center" "")
                       (server_version h) (dse_server_version h)
                       (partitioner h) (tokens h)))))).
Proof.
  unfold set.
  destruct (set_release_version row _) as [h1 w1]. cbn [fst].
  destruct (correct_for_dse row h1) as [h2 w2]. reflexivity.
Qed.

(** The release version step: the parsed version on success, the stored
    one on failure; the stored DSE version is not touched. *)
Lemma set_release_version_spec row h :
  let result := Version.parse (get_string_by_name row "release_version" "") Version.default in
  server_version (fst (set_release_version row h))
    = (if fst result then snd result else server_version h) /\
  dse_server_version (fst (set_release_version row h)) = dse_server_version h.
Proof.
  unfold set_release_version.
  destruct (Version.parse _ Version.default) as [[|] parsed]; split; reflexivity.
Qed.

(** The correction step, when its condition holds. *)
Lemma correct_for_dse_spec row h dse_value :
  Version.ge (server_version h) (mkVersion 4 0 0) = true ->
  get_by_name row "dse_version" = Some dse_value ->
  let result := Version.parse (get_string_by_name row "dse_version" "") (dse_server_version h) in
  server_version (fst (correct_for_dse row h))
    = (if fst result && Version.lt (snd result) (mkVersion 6 7 0)
       then mkVersion 3 11 0 else server_version h).
Proof.
  intros Hge Hfield. unfold correct_for_dse. rewrite Hge, Hfield.
  rewrite bool_decide_eq_true_2 by eauto. simpl andb. 
  destruct (Version.parse _ (dse_server_version h)) as [[|] dse]; simpl; [|reflexivity].
  destruct (Version.lt dse (mkVersion 6 7 0)); reflexivity.
Qed.

End HostSetFacts.

(** C5.  When the release version of the row parses to a version that is
    at least (4,0,0) and the row has a [dse_version] field: a DSE version
    that parses below (6,7,0) sets [server_version_] to (3,11,0); one that
    parses to (6,7,0) or more leaves the parsed release version; and one
    that does not parse leaves the parsed release version as well. *)
Theorem dse_correction (row : Row) (use_tokens : bool) (h : Host)
    (release : VersionNumber) (dse_value : Value)
    (dse_parsed : bool) (dse : VersionNumber) :
  Version.parse (HostSet.get_string_by_name row "release_version" "") Version.default
    = (true, release) ->
  Version.ge release (mkVersion 4 0 0) = true ->
  HostSet.get_by_name row "dse_version" = Some dse_value ->
  Version.parse (HostSet.get_string_by_name row "dse_version" "") (dse_server_version h)
    = (dse_parsed, dse) ->
  server_version (fst (HostSet.set row use_tokens h)) =
    if dse_parsed
    then (if Version.lt dse (mkVersion 6 7 0) then mkVersion 3 11 0 else release)
    else release.
Proof.
  intros Hrelease Hge Hfield Hdse.
  rewrite server_version_set.
  match goal with |- context [HostSet.set_release_version row ?h0] =>
    destruct (set_release_version_spec row h0) as [Hsv Hkeep];
    set (h1 := fst (HostSet.set_release_version row h0)) in *
  end.
  rewrite Hrelease in Hsv. simpl in Hsv, Hkeep.
  rewrite (correct_for_dse_spec row h1 dse_value) by (rewrite ?Hsv; assumption).
  rewrite Hkeep, Hdse, Hsv. simpl.
  destruct dse_parsed; [|reflexivity].
  destruct (Version.lt dse (mkVersion 6 7 0)); reflexivity.
Qed.

Lemma dse_correction_witness :
  server_version
    (fst (HostSet.set {[ "release_version" := VData "4.0.0" None;
                         "dse_version" := VData "6.6.0" None ]}
            false (Sample.host "10.0.0.1" "r1")))
  = mkVersion 3 11 0.
Proof.
  apply (dse_correction
           {[ "release_version" := VData "4.0.0" None;
              "dse_version" := VData "6.6.0" None ]}
           false (Sample.host "10.0.0.1" "r1") (mkVersion 4 0 0) (VData "6.6.0" None)
           true (mkVersion 6 6 0));
    vm_compute; reflexivity.
Defined.

Example set_4_0_0_with_dse_6_6_0 :
  server_version
    (fst (HostSet.set {[ "release_version" := VData "4.0.0" None;
                         "dse_version" := VData "6.6.0" None ]}
            false (Sample.host "10.0.0.1" "r1")))
  = mkVersion 3 11 0.
Proof. vm_compute. reflexivity. Qed.

Example set_4_0_0_with_unparsable_dse :
  HostSet.set {[ "release_version" := VData "4.0.0" None;
                 "dse_version" := VData "six" None ]}
    false (Sample.host "10.0.0.1" "r1")
  = (mkHost (mkAddress "10.0.0.1" 9042) "" "" (mkVersion 4 0 0) Version.default "" [],
     [InvalidDseVersion "six"]).
Proof. vm_compute. reflexivity. Qed.

Example set_4_0_0_with_dse_6_7_0 :
  server_version
    (fst (HostSet.set {[ "release_version" := VData "4.0.0" None;
                         "dse_version" := VData "6.7.0" None ]}
            false (Sample.host "10.0.0.1" "r1")))
  = mkVersion 4 0 0.
Proof. vm_compute. reflexivity. Qed.

(** C10.  The condition of the correction reads the stored
    [server_version_]: when the release version of the row does not parse,
    the stored version is at least (4,0,0), and the row has a
    [dse_version] that parses below (6,7,0), [set] replaces the stored
    version by (3,11,0). *)
Theorem stale_version_is_corrected (row : Row) (use_tokens : bool) (h : Host)
    (dse_value : Value) (dse : VersionNumber) :
  fst (Version.parse (HostSet.get_string_by_name row "release_version" "") Version.default)
    = false ->
  Version.ge (server_version h) (mkVersion 4 0 0) = true ->
  HostSet.get_by_name row "dse_version" = Some dse_value ->
  Version.parse (HostSet.get_string_by_name row "dse_version" "") (dse_server_version h)
    = (true, dse) ->
  Version.lt dse (mkVersion 6 7 0) = true ->
  server_version (fst (HostSet.set row use_tokens h)) = mkVersion 3 11 0.
Proof.
  intros Hrelease Hge Hfield Hdse Hlt.
  rewrite server_version_set.
  match goal with |- context [HostSet.set_release_version row ?h0] =>
    destruct (set_release_version_spec row h0) as [Hsv Hkeep];
    set (h1 := fst (HostSet.set_release_version row h0)) in *
  end.
  rewrite Hrelease in Hsv. simpl in Hsv, Hkeep.
  rewrite (correct_for_dse_spec row h1 dse_value) by (rewrite ?Hsv; assumption).
  rewrite Hkeep, Hdse. simpl. rewrite Hlt. reflexivity.
Qed.

Lemma stale_version_is_corrected_witness :
  server_version
    (fst (HostSet.set {[ "release_version" := VData "unknown" None;
                         "dse_version" := VData "6.0.2" None ]}
            false
            (mkHost (mkAddress "10.0.0.1" 9042) "r1" "dc1"
               (mkVersion 4 0 0) Version.default "" [])))
  = mkVersion 3 11 0.
Proof.
  apply (stale_version_is_corrected
           {[ "release_version" := VData "unknown" None;
              "dse_version" := VData "6.0.2" None ]}
           false
           (mkHost (mkAddress "10.0.0.1" 9042) "r1" "dc1"
              (mkVersion 4 0 0) Version.default "" [])
           (VData "6.0.2" None) (mkVersion 6 0 2));
    vm_compute; reflexivity.
Defined.

(* ===================================================================== *)
(** ** The connection marketplace *)
(* ===================================================================== *)

Section MarketFacts.

Import Market.

Implicit Types (m : Marketplace) (shard : Z).

Lemma get_unpooled_connections_empty m shard how_many :
  available m shard = [] ->
  get_unpooled_connections shard how_many m = Some ([], m).
Proof.
  unfold available, get_unpooled_connections.
  destruct (m !! shard) as [[|c l]|]; simpl; (reflexivity || discriminate).
Qed.

(** A withdrawal with a count that is not negative, from a list whose
    size fits an [int]. *)
Lemma get_unpooled_connections_spec m shard how_many :
  0 <= how_many ->
  Z.of_nat (length (available m shard)) <= Int.INT_MAX ->
  let k := Z.to_nat (Z.min how_many (Z.of_nat (length (available m shard)))) in
  exists m',
    get_unpooled_connections shard how_many m = Some (take k (available m shard), m') /\
    available m' shard = drop k (available m shard) /\
    (forall other, other <> shard -> m' !! other = m !! other).
Proof.
  intros Hcount Hsize k.
  destruct (available m shard) as [|c l] eqn:Havail.
  - exists m. rewrite get_unpooled_connections_empty by assumption.
    rewrite take_nil, drop_nil. auto.
  - unfold available in Havail. unfold get_unpooled_connections.
    destruct (m !! shard) as [held_here|] eqn:Hlookup; simpl in Havail; [|discriminate].
    subst held_here.
    rewrite to_int32_small by (unfold Int.INT_MIN; lia).
    fold k. destruct (Z.ltb_spec (Z.min how_many (Z.of_nat (length (c :: l)))) 0); [lia|].
    eexists. split; [reflexivity|]. split.
    + unfold available. now rewrite lookup_insert_eq.
    + intros other Hother. now rewrite lookup_insert_ne.
Qed.

Lemma available_add_unpooled_connection conn m shard :
  available (add_unpooled_connection conn m) shard =
  if decide (shard_id conn = shard)
  then available m shard ++ [Export conn]
  else available m shard.
Proof.
  unfold available, add_unpooled_connection.
  destruct (decide (shard_id conn = shard)) as [<-|Hne].
  - now rewrite lookup_insert_eq.
  - now rewrite lookup_insert_ne.
Qed.

(** Conservation over a run, for one shard. *)
Lemma run_conservation shard ops : forall m,
  counts_nonnegative ops ->
  sizes_fit_int m (length ops) ->
  exists m' withdrawn,
    run shard ops m = Some (m', withdrawn) /\
    (length (available m' shard) + withdrawn
     = length (available m shard) + deposited shard ops)%nat.
Proof.
  induction ops as [|[conn|s how_many] ops IH]; intros m Hcounts Hsizes.
  - exists m, 0%nat. split; [reflexivity|simpl; lia].
  - apply Forall_cons in Hcounts as [_ Hcounts].
    destruct (IH (add_unpooled_connection conn m) Hcounts) as (m' & w & Hrun & Hsum).
    { intros other. specialize (Hsizes other).
      rewrite available_add_unpooled_connection.
      destruct (decide (shard_id conn = other)); rewrite ?length_app; simpl in *; lia. }
    exists m', w. split; [exact Hrun|].
    rewrite Hsum, available_add_unpooled_connection. simpl.
    destruct (decide (shard_id conn = shard)); rewrite ?length_app; simpl; lia.
  - apply Forall_cons in Hcounts as [Hcount Hcounts].
    destruct (get_unpooled_connections_spec m s how_many Hcount) as (m1 & Hget & Hhere & Hother).
    { specialize (Hsizes s). lia. }
    assert (forall other, (length (available m1 other) <= length (available m other))%nat)
      as Hshrink.
    { intros other. destruct (decide (other = s)) as [->|Hne].
      - rewrite Hhere, length_drop. lia.
      - unfold available. now rewrite Hother. }
    destruct (IH m1 Hcounts) as (m' & w & Hrun & Hsum).
    { intros other. specialize (Hsizes other). specialize (Hshrink other).
      simpl in Hsizes. lia. }
    simpl. rewrite Hget, Hrun. eexists _, _. split; [reflexivity|].
    destruct (decide (s = shard)) as [->|Hne].
    + rewrite Hhere, length_drop in Hsum. rewrite length_take. lia.
    + assert (available m1 shard = available m shard) as Hsame
        by (unfold available; rewrite Hother by congruence; reflexivity).
      rewrite Hsame in Hsum. simpl. lia.
Qed.

End MarketFacts.

(** C4.  For a count that is not negative (and lists whose size fits an
    [int]): a withdrawal removes exactly min(count, available) connections
    from the front of the shard's list and returns them in list order, the
    rest of that list and all other shards stay as they were; for an
    unknown shard or an empty list it returns the empty sequence and the
    marketplace itself, whatever the count.  Over a run of deposits and
    withdrawals, what a shard has on offer plus what was withdrawn from it
    equals what it had plus what was deposited to it. *)
Theorem marketplace_conservation (m : Marketplace) (shard how_many : Z)
    (ops : list Market.Op) :
  0 <= how_many ->
  Market.counts_nonnegative ops ->
  Market.sizes_fit_int m (length ops) ->
  let on_offer := Market.available m shard in
  let k := Z.to_nat (Z.min how_many (Z.of_nat (length on_offer))) in
  (exists m',
     Market.get_unpooled_connections shard how_many m = Some (take k on_offer, m') /\
     Z.of_nat (length (take k on_offer)) = Z.min how_many (Z.of_nat (length on_offer)) /\
     Market.available m' shard = drop k on_offer /\
     take k on_offer ++ Market.available m' shard = on_offer /\
     (forall other, other <> shard -> m' !! other = m !! other)) /\
  (on_offer = [] ->
     forall n, Market.get_unpooled_connections shard n m = Some ([], m)) /\
  (exists m' withdrawn,
     Market.run shard ops m = Some (m', withdrawn) /\
     (length (Market.available m' shard) + withdrawn
      = length on_offer + Market.deposited shard ops)%nat).
Proof.
  intros Hcount Hcounts Hsizes on_offer k. split; [|split].
  - destruct (get_unpooled_connections_spec m shard how_many Hcount)
      as (m' & Hget & Hhere & Hother).
    { specialize (Hsizes shard). lia. }
    fold on_offer in Hget, Hhere. fold k in Hget, Hhere.
    exists m'. split; [exact Hget|]. split; [|split; [exact Hhere|split; [|exact Hother]]].
    + rewrite length_take. subst k. lia.
    + rewrite Hhere. apply take_drop.
  - intros Hnone n. now apply get_unpooled_connections_empty.
  - now apply run_conservation.
Qed.

Lemma sizes_fit_int_from_lists (m : Marketplace) (room : nat) :
  Z.of_nat room <= Int.INT_MAX ->
  map_Forall (fun _ l => Z.of_nat (length l + room) <= Int.INT_MAX) m ->
  Market.sizes_fit_int m room.
Proof.
  intros Hroom Hall shard. unfold Market.available.
  destruct (m !! shard) as [l|] eqn:Hlookup; simpl.
  - exact (Hall shard l Hlookup).
  - exact Hroom.
Qed.

Lemma marketplace_conservation_witness :
  let m := Sample.market in
  let ops := [Market.Deposit (mkConnection 9 0); Market.Withdraw 0 2; Market.Withdraw 1 5] in
  let on_offer := Market.available m 0 in
  let k := Z.to_nat (Z.min 2 (Z.of_nat (length on_offer))) in
  (exists m',
     Market.get_unpooled_connections 0 2 m = Some (take k on_offer, m') /\
     Z.of_nat (length (take k on_offer)) = Z.min 2 (Z.of_nat (length on_offer)) /\
     Market.available m' 0 = drop k on_offer /\
     take k on_offer ++ Market.available m' 0 = on_offer /\
     (forall other, other <> 0 -> m' !! other = m !! other)) /\
  (on_offer = [] ->
     forall n, Market.get_unpooled_connections 0 n m = Some ([], m)) /\
  (exists m' withdrawn,
     Market.run 0 ops m = Some (m', withdrawn) /\
     (length (Market.available m' 0) + withdrawn
      = length on_offer + Market.deposited 0 ops)%nat).
Proof.
  apply (marketplace_conservation Sample.market 0 2
           [Market.Deposit (mkConnection 9 0); Market.Withdraw 0 2; Market.Withdraw 1 5]).
  - lia.
  - repeat constructor; lia.
  - apply sizes_fit_int_from_lists.
    + unfold Int.INT_MAX. simpl. lia.
    + apply (bool_decide_unpack _). vm_compute. exact I.
Defined.

Example withdraw_two_of_three :
  Market.get_unpooled_connections 0 2 Sample.market
  = Some ([Sample.conn 1 0; Sample.conn 2 0],
          {[ 0 := [Sample.conn 3 0]; 1 := [Sample.conn 4 1] ]}).
Proof. vm_compute. reflexivity. Qed.

Example withdraw_more_than_available :
  fst <$> Market.get_unpooled_connections 1 5 Sample.market = Some [Sample.conn 4 1].
Proof. vm_compute. reflexivity. Qed.

Example withdraw_unknown_shard :
  Market.get_unpooled_connections 7 5 Sample.market = Some ([], Sample.market).
Proof. vm_compute. reflexivity. Qed.

Example withdraw_negative_count :
  Market.get_unpooled_connections 0 (-1) Sample.market = None.
Proof. vm_compute. reflexivity. Qed.

(* --------------------------------------------------------------------- *)
(** *** close_unpooled_connections *)
(* --------------------------------------------------------------------- *)

Section CloseFacts.

Import Market.

Lemma imported_in_app e1 e2 : imported_in (e1 ++ e2) = imported_in e1 ++ imported_in e2.
Proof. apply omap_app. Qed.

Lemma closed_in_app e1 e2 : closed_in (e1 ++ e2) = closed_in e1 ++ closed_in e2.
Proof. apply omap_app. Qed.

(** One list: every connection of it is imported once and closed once,
    on the given loop, in list order. *)
Lemma close_events_spec loop (l : list ExportedConnection) :
  imported_in (close_events loop l) = (fun c => (loop, exported c)) <$> l /\
  closed_in (close_events loop l) = (fun c => (loop, exported c)) <$> l.
Proof.
  unfold close_events. induction l as [|c l [IHi IHc]]; [split; reflexivity|].
  rewrite bind_cons, imported_in_app, closed_in_app, IHi, IHc. split; reflexivity.
Qed.

Lemma close_all_events_spec loop (kvs : list (Z * list ExportedConnection)) :
  imported_in (kv ← kvs; close_events loop (snd kv))
    = (fun c => (loop, exported c)) <$> (kv ← kvs; snd kv) /\
  closed_in (kv ← kvs; close_events loop (snd kv))
    = (fun c => (loop, exported c)) <$> (kv ← kvs; snd kv).
Proof.
  induction kvs as [|kv kvs [IHi IHc]]; [split; reflexivity|].
  rewrite !bind_cons, imported_in_app, closed_in_app, fmap_app, IHi, IHc.
  destruct (close_events_spec loop (snd kv)) as [-> ->]. split; reflexivity.
Qed.

Lemma close_all_events_length loop (kvs : list (Z * list ExportedConnection)) :
  length (kv ← kvs; close_events loop (snd kv)) = (2 * length (kv ← kvs; snd kv))%nat.
Proof.
  induction kvs as [|kv kvs IH]; [reflexivity|].
  rewrite !bind_cons, !length_app, IH.
  assert (length (close_events loop (snd kv)) = (2 * length (snd kv))%nat) as ->; [|lia].
  unfold close_events. induction (snd kv) as [|c l IHl]; [reflexivity|].
  rewrite bind_cons, length_app, IHl. simpl. lia.
Qed.

Lemma cleared_lookup (m : Marketplace) shard l :
  ((fun _ => []) <$> m : Marketplace) !! shard = Some l -> l = [].
Proof.
  rewrite lookup_fmap. destruct (m !! shard); simpl; congruence.
Qed.

Lemma bind_all_nil (kvs : list (Z * list ExportedConnection)) :
  (forall kv, kv ∈ kvs -> snd kv = []) -> (kv ← kvs; snd kv) = [].
Proof.
  induction kvs as [|kv kvs IH]; intros Hall; [reflexivity|].
  rewrite bind_cons, (Hall kv) by left. apply IH. intros kv' Hin. apply Hall. now right.
Qed.

End CloseFacts.

(** C8.  After one call of [close_unpooled_connections] every shard's
    list is empty, the marketplace holds nothing, and a withdrawal from
    any shard returns the empty sequence, whatever the count.  The
    connections imported by the call, and the ones closed by it, are the
    connections held before the call, each of them once, all on the
    given loop. *)
Theorem close_all_empties_marketplace (loop : Z) (m : Marketplace) :
  let events := fst (Market.close_unpooled_connections loop m) in
  let m' := snd (Market.close_unpooled_connections loop m) in
  (forall shard l, m' !! shard = Some l -> l = []) /\
  (forall shard, Market.available m' shard = []) /\
  Market.held m' = [] /\
  (forall shard how_many,
     Market.get_unpooled_connections shard how_many m' = Some ([], m')) /\
  Market.imported_in events = (fun c => (loop, exported c)) <$> Market.held m /\
  Market.closed_in events = (fun c => (loop, exported c)) <$> Market.held m /\
  length events = (2 * length (Market.held m))%nat.
Proof.
  intros events m'.
  assert (forall shard l, m' !! shard = Some l -> l = []) as Hcleared
    by (intros shard l; apply cleared_lookup).
  assert (forall shard, Market.available m' shard = []) as Hnone.
  { intros shard. unfold Market.available.
    destruct (m' !! shard) as [l|] eqn:Hl; [|reflexivity]. simpl. eauto. }
  destruct (close_all_events_spec loop (map_to_list m)) as [Hi Hc].
  split; [exact Hcleared|]. split; [exact Hnone|].
  split; [|split; [|split; [exact Hi|split; [exact Hc|]]]].
  - apply bind_all_nil. intros [shard l] Hin. apply elem_of_map_to_list in Hin. simpl. eauto.
  - intros shard how_many. now apply get_unpooled_connections_empty.
  - apply close_all_events_length.
Qed.

Example close_all_sample :
  Market.close_unpooled_connections 5 {[ 0 := [Sample.conn 1 0; Sample.conn 2 0] ]}
  = ([Imported 5 (mkConnection 1 0); Closed 5 (mkConnection 1 0);
      Imported 5 (mkConnection 2 0); Closed 5 (mkConnection 2 0)],
     {[ 0 := [] ]}).
Proof. vm_compute. reflexivity. Qed.

(* ===================================================================== *)
(** ** More about VersionNumber::parse *)
(* ===================================================================== *)

Lemma string_app_assoc (s1 s2 s3 : string) : (s1 +:+ s2) +:+ s3 = s1 +:+ (s2 +:+ s3).
Proof.
  induction s1 as [|c t IH]; [reflexivity|].
  change (String c ((t +:+ s2) +:+ s3) = String c (t +:+ (s2 +:+ s3))).
  now rewrite IH.
Qed.

Lemma c_str_app s r : Scan.no_nul s = true -> Scan.c_str (s +:+ r) = s +:+ Scan.c_str r.
Proof.
  induction s as [|c t IH]; simpl; [reflexivity|].
  destruct (Ascii.eqb c Ascii.zero); simpl; [discriminate|].
  intros Ht. now rewrite IH.
Qed.

Lemma starts_with_digit_c_str r :
  Scan.starts_with_digit r = false -> Scan.starts_with_digit (Scan.c_str r) = false.
Proof.
  destruct r as [|c t]; simpl; [reflexivity|].
  destruct (Ascii.eqb c Ascii.zero); [reflexivity|]. simpl. auto.
Qed.

Lemma pretty_Z_no_nul (x : Z) : Scan.no_nul (pretty x) = true.
Proof.
  destruct x as [|p|p]; [reflexivity| |].
  - apply (pretty_no_nul (N.pos p)).
  - change (pretty (Z.neg p)) with ("-" +:+ pretty (N.pos p)).
    rewrite no_nul_app, pretty_no_nul. reflexivity.
Qed.

(** [%d] reads back a printed integer of the range of [int], sign
    included, and stops at the first character that is not a digit. *)
Lemma scan_int_pretty_Z (x : Z) (r : string) :
  Text.fits_int x ->
  Scan.starts_with_digit r = false ->
  Scan.scan_int (pretty x +:+ r) = Scan.Converted x r.
Proof.
  unfold Text.fits_int, Int.INT_MIN, Int.INT_MAX. intros Hx Hr.
  destruct x as [|p|p].
  - apply (scan_int_pretty 0%N r); [unfold Int.INT_MAX; lia|exact Hr].
  - apply (scan_int_pretty (N.pos p) r); [unfold Int.INT_MAX; simpl; lia|exact Hr].
  - change (pretty (Z.neg p)) with ("-" +:+ pretty (N.pos p)).
    rewrite string_app_assoc.
    destruct (pretty_N_shape (N.pos p) r) as (s & Hs & Hd & Hscan & _).
    rewrite Hs.
    change (Scan.scan_int ("-" +:+ s)) with (Scan.scan_unsigned true s).
    unfold Scan.scan_unsigned. rewrite Hd, Hscan.
    assert (Scan.scan_digits (Z.of_N (N.pos p)) r = (Z.of_N (N.pos p), r)) as ->.
    { destruct r as [|c t]; [reflexivity|]. simpl in *.
      destruct (Scan.digit_value c); [discriminate|reflexivity]. }
    rewrite to_int32_small; [reflexivity|]. unfold Int.INT_MIN, Int.INT_MAX. simpl. lia.
Qed.

(** X1.  Round trip: on three integers of the range of [int], printed
    with dots between them and followed by any text that does not start
    with a digit, [parse] returns true and the instance holds the three
    integers, whatever it held before. *)
Theorem parse_dotted_round_trip (a b c : Z) (rest : string) (v : VersionNumber) :
  Text.fits_int a -> Text.fits_int b -> Text.fits_int c ->
  Scan.starts_with_digit rest = false ->
  Version.parse (Text.dotted a b c +:+ rest) v = (true, mkVersion a b c).
Proof.
  intros Ha Hb Hc Hrest. unfold Version.parse, Text.dotted.
  rewrite c_str_app
    by (rewrite !no_nul_app, !pretty_Z_no_nul; reflexivity).
  rewrite !string_app_assoc.
  unfold Scan.sscanf_d_d_d.
  rewrite (scan_int_pretty_Z a) by (assumption || reflexivity).
  change (Scan.scan_dot ("." +:+ ?s)) with (Some s). cbv iota beta.
  rewrite (scan_int_pretty_Z b) by (assumption || reflexivity).
  change (Scan.scan_dot ("." +:+ ?s)) with (Some s). cbv iota beta.
  rewrite (scan_int_pretty_Z c) by (assumption || now apply starts_with_digit_c_str).
  reflexivity.
Qed.

Lemma parse_dotted_round_trip_witness :
  Version.parse (Text.dotted 3 (-11) 5 +:+ "-SNAPSHOT") (mkVersion 9 9 9)
  = (true, mkVersion 3 (-11) 5).
Proof.
  apply (parse_dotted_round_trip 3 (-11) 5 "-SNAPSHOT" (mkVersion 9 9 9));
    unfold Text.fits_int, Int.INT_MIN, Int.INT_MAX; (lia || reflexivity).
Defined.

Lemma is_space_not_nul c : Scan.is_space c = true -> Ascii.eqb c Ascii.zero = false.
Proof.
  destruct (Ascii.eqb_spec c Ascii.zero) as [->|_]; [discriminate|reflexivity].
Qed.

Lemma all_space_no_nul ws : Text.all_space ws = true -> Scan.no_nul ws = true.
Proof.
  induction ws as [|c t IH]; simpl; [reflexivity|].
  intros [Hc Ht]%andb_true_iff. now rewrite (is_space_not_nul c Hc), IH.
Qed.

Lemma skip_space_app ws s :
  Text.all_space ws = true -> Scan.skip_space (ws +:+ s) = Scan.skip_space s.
Proof.
  induction ws as [|c t IH]; simpl; [reflexivity|].
  intros [Hc Ht]%andb_true_iff. rewrite Hc. now apply IH.
Qed.

(** X2.  White space in front of the version text is skipped: it does not
    change the result of [parse]. *)
Theorem parse_skips_leading_space (ws text : string) (v : VersionNumber) :
  Text.all_space ws = true ->
  Version.parse (ws +:+ text) v = Version.parse text v.
Proof.
  intros Hws. unfold Version.parse.
  rewrite c_str_app by now apply all_space_no_nul.
  unfold Scan.sscanf_d_d_d, Scan.scan_int at 1 4.
  now rewrite skip_space_app.
Qed.

Lemma parse_skips_leading_space_witness :
  Version.parse (" " +:+ "3.11.5") Version.default = Version.parse "3.11.5" Version.default.
Proof.
  apply (parse_skips_leading_space " " "3.11.5" Version.default). reflexivity.
Defined.

Lemma parse_again (text : string) (v : VersionNumber) :
  Version.parse text (snd (Version.parse text v)) = Version.parse text v.
Proof.
  unfold Version.parse, Scan.sscanf_d_d_d. destruct v as [a b c]. simpl.
  repeat case_match; simplify_eq/=; reflexivity.
Qed.

(** X3.  Parsing the same text twice is the same as parsing it once: the
    second call returns the same answer and leaves the same triple. *)
Theorem parse_twice (text : string) (v : VersionNumber) :
  Version.parse text (snd (Version.parse text v)) = Version.parse text v.
Proof.
  unfold Version.parse, Scan.sscanf_d_d_d. destruct v as [a b c]. simpl.
  destruct (Scan.scan_int (Scan.c_str text)) as [first r1| |]; [|reflexivity..].
  destruct (Scan.scan_dot r1) as [r2|]; [|reflexivity].
  destruct (Scan.scan_int r2) as [second r3| |]; [|reflexivity..].
  destruct (Scan.scan_dot r3) as [r4|]; [|reflexivity].
  destruct (Scan.scan_int r4) as [third r5| |]; reflexivity.
Qed.

(** X4.  Whether [parse] succeeds depends on the text only, and when it
    succeeds the major and the minor component come from the text: they
    are the same whatever the instance held before. *)
Theorem parse_success_ignores_old_value (text : string) (v w : VersionNumber) :
  fst (Version.parse text v) = true ->
  fst (Version.parse text w) = true /\
  major_version (snd (Version.parse text v)) = major_version (snd (Version.parse text w)) /\
  minor_version (snd (Version.parse text v)) = minor_version (snd (Version.parse text w)).
Proof.
  unfold Version.parse, Scan.sscanf_d_d_d. destruct v as [a b c], w as [a' b' c']. simpl.
  repeat case_match; simplify_eq/=; intros Hok; (discriminate || auto).
Qed.

Lemma parse_success_ignores_old_value_witness :
  fst (Version.parse "3.11" (mkVersion 7 8 9)) = true /\
  major_version (snd (Version.parse "3.11" (mkVersion 1 2 5)))
    = major_version (snd (Version.parse "3.11" (mkVersion 7 8 9))) /\
  minor_version (snd (Version.parse "3.11" (mkVersion 1 2 5)))
    = minor_version (snd (Version.parse "3.11" (mkVersion 7 8 9))).
Proof.
  apply (parse_success_ignores_old_value "3.11" (mkVersion 1 2 5) (mkVersion 7 8 9)).
  reflexivity.
Defined.

(** X5.  The text handed to [sscanf] ends at the first NUL character of
    the string: what follows it has no effect on [parse]. *)
Theorem parse_stops_at_nul (text hidden : string) (v : VersionNumber) :
  Scan.no_nul text = true ->
  Version.parse (text +:+ String Ascii.zero hidden) v = Version.parse text v.
Proof.
  intros Htext. unfold Version.parse.
  rewrite c_str_app by assumption. simpl Scan.c_str at 1.
  now rewrite string_app_empty_r, c_str_no_nul.
Qed.

Lemma parse_stops_at_nul_witness :
  Version.parse ("3.11" +:+ String Ascii.zero ".5") Version.default
  = Version.parse "3.11" Version.default.
Proof.
  apply (parse_stops_at_nul "3.11" ".5" Version.default). reflexivity.
Defined.

(* ===================================================================== *)
(** ** More about LatencyTracker::update *)
(* ===================================================================== *)

Lemma to_uint64_succ_differs n : 0 <= n < 2 ^ 64 -> Int.to_uint64 (n + 1) <> n.
Proof.
  intros Hn. unfold Int.to_uint64, Int.wrap_unsigned.
  destruct (Z.eq_dec n (2 ^ 64 - 1)) as [->|Hne].
  - replace (2 ^ 64 - 1 + 1) with (2 ^ 64) by lia.
    rewrite Z.mod_same by lia. lia.
  - rewrite Z.mod_small by lia. lia.
Qed.

(** X6.  A call of [update] drops its sample exactly when the tracker is
    past the warm-up, has a defined average, and the delay that line 72
    computes is not positive.  A call that does not drop its sample
    stores the clock value as the timestamp and adds one to the counter,
    modulo [2^64]. *)
Theorem update_drops_exactly_on_clock_anomaly
    (decayed_average : Z -> Z -> Z -> Z -> Z)
    (now latency_ns : Z) (t : LatencyTracker) :
  0 <= num_measured (current t) < 2 ^ 64 ->
  let t' := Tracker.update decayed_average now latency_ns t in
  let dropped :=
    threshold_to_account t <= num_measured (current t) /\
    0 <= average (current t) /\
    Int.to_int64 (now - timestamp (current t)) <= 0 in
  (t' = t <-> dropped) /\
  (~ dropped ->
     timestamp (current t') = now /\
     num_measured (current t') = (num_measured (current t) + 1) mod 2 ^ 64).
Proof.
  intros Hn t' dropped. subst t' dropped. unfold Tracker.update.
  pose proof (to_uint64_succ_differs _ Hn) as Hdiff.
  destruct (Z.ltb_spec (num_measured (current t)) (threshold_to_account t));
    [|destruct (Z.ltb_spec (average (current t)) 0);
      [|destruct (Z.leb_spec (Int.to_int64 (now - timestamp (current t))) 0)]].
  all: split; [split|]; try (intros; split; reflexivity); try lia; try tauto.
  all: try (intros Heq; exfalso; apply Hdiff;
            apply (f_equal (fun x => num_measured (current x))) in Heq; exact Heq).
Qed.

Lemma update_drops_exactly_on_clock_anomaly_witness :
  let d := fun _ _ _ _ : Z => 0 in
  let t := mkTracker 1000 2 (mkAverage 7 100 3) in
  let t' := Tracker.update d 50 9 t in
  let dropped :=
    threshold_to_account t <= num_measured (current t) /\
    0 <= average (current t) /\
    Int.to_int64 (50 - timestamp (current t)) <= 0 in
  (t' = t <-> dropped) /\
  (~ dropped ->
     timestamp (current t') = 50 /\
     num_measured (current t') = (num_measured (current t) + 1) mod 2 ^ 64).
Proof.
  apply (update_drops_exactly_on_clock_anomaly (fun _ _ _ _ => 0) 50 9
           (mkTracker 1000 2 (mkAverage 7 100 3))).
  simpl. split; [lia|reflexivity].
Defined.



(** X8.  A sample of [2^63] ns or more is stored as a negative average.
    The next call takes a negative average for an undefined one: it
    stores its own sample as it is, without any decay and without
    looking at the clock. *)
Theorem oversized_sample_is_replaced
    (decayed_average : Z -> Z -> Z -> Z -> Z)
    (now1 big now2 latency_ns : Z) (t : LatencyTracker) :
  threshold_to_account t <= num_measured (current t) ->
  0 <= num_measured (current t) < 2 ^ 64 - 1 ->
  average (current t) < 0 ->
  2 ^ 63 <= big < 2 ^ 64 ->
  let t1 := Tracker.update decayed_average now1 big t in
  let t2 := Tracker.update decayed_average now2 latency_ns t1 in
  average (current t1) = big - 2 ^ 64 /\
  average (current t2) = Int.to_int64 latency_ns /\
  timestamp (current t2) = now2.
Proof.
  intros Hwarm Hn Havg Hbig t1 t2.
  assert (current t1 = mkAverage (big - 2 ^ 64) now1 (num_measured (current t) + 1)
          /\ threshold_to_account t1 = threshold_to_account t) as [Hcur Hthr].
  { subst t1. unfold Tracker.update.
    destruct (Z.ltb_spec (num_measured (current t)) (threshold_to_account t)); [lia|].
    destruct (Z.ltb_spec (average (current t)) 0); [|lia]. simpl.
    rewrite to_int64_of_uint64 by lia. rewrite to_uint64_small by lia.
    destruct (Z.ltb_spec big (2 ^ 63)); [lia|]. split; reflexivity. }
  split; [now rewrite Hcur|].
  subst t2. unfold Tracker.update. rewrite Hcur, Hthr. simpl.
  destruct (Z.ltb_spec (num_measured (current t) + 1) (threshold_to_account t)); [lia|].
  destruct (Z.ltb_spec (big - 2 ^ 64) 0); [|lia]. split; reflexivity.
Qed.

Lemma oversized_sample_is_replaced_witness :
  let d := fun _ _ _ _ : Z => 0 in
  let t := mkTracker 1000 2 (mkAverage (-1) 100 2) in
  let t1 := Tracker.update d 200 (2 ^ 63) t in
  let t2 := Tracker.update d 150 40 t1 in
  average (current t1) = 2 ^ 63 - 2 ^ 64 /\
  average (current t2) = Int.to_int64 40 /\
  timestamp (current t2) = 150.
Proof.
  apply (oversized_sample_is_replaced (fun _ _ _ _ => 0) 200 (2 ^ 63) 150 40
           (mkTracker 1000 2 (mkAverage (-1) 100 2))); simpl; lia.
Defined.

(** X9.  Over any run of calls, [update] keeps the scale and the
    threshold of the tracker, and the counter grows by at most one per
    call: it never exceeds its start value plus the number of calls. *)
Theorem updates_keep_config_and_count
    (decayed_average : Z -> Z -> Z -> Z -> Z)
    (calls : list (Z * Z)) (t : LatencyTracker) :
  0 <= num_measured (current t) ->
  num_measured (current t) + Z.of_nat (length calls) < 2 ^ 64 ->
  let t' := Tracker.updates decayed_average calls t in
  scale_ns t' = scale_ns t /\
  threshold_to_account t' = threshold_to_account t /\
  num_measured (current t) <= num_measured (current t')
    <= num_measured (current t) + Z.of_nat (length calls).
Proof.
  revert t. induction calls as [|[now latency_ns] calls IH]; intros t Hn Hlen.
  - simpl. repeat split; lia.
  - rewrite length_cons, Nat2Z.inj_succ in Hlen.
    assert (scale_ns (Tracker.update decayed_average now latency_ns t) = scale_ns t /\
            threshold_to_account (Tracker.update decayed_average now latency_ns t)
              = threshold_to_account t /\
            num_measured (current t)
              <= num_measured (current (Tracker.update decayed_average now latency_ns t))
              <= num_measured (current t) + 1) as (Hs & Hthr & Hnum).
    { unfold Tracker.update.
      repeat case_match; simpl; rewrite ?to_uint64_small by lia; repeat split; lia. }
    specialize (IH (Tracker.update decayed_average now latency_ns t)).
    change (Tracker.updates decayed_average ((now, latency_ns) :: calls) t)
      with (Tracker.updates decayed_average calls
              (Tracker.update decayed_average now latency_ns t)).
    rewrite length_cons, Nat2Z.inj_succ.
    destruct IH as (IHs & IHthr & IHnum); [lia|lia|].
    cbv zeta. rewrite IHs, IHthr, Hs, Hthr. repeat split; lia.
Qed.

Lemma updates_keep_config_and_count_witness :
  let d := fun _ _ _ _ : Z => 0 in
  let t := Tracker.create 1000 1 in
  let t' := Tracker.updates d [(10, 5); (20, 6); (20, 7)] t in
  scale_ns t' = scale_ns t /\
  threshold_to_account t' = threshold_to_account t /\
  num_measured (current t) <= num_measured (current t')
    <= num_measured (current t) + Z.of_nat (length [(10, 5); (20, 6); (20, 7)]).
Proof.
  apply (updates_keep_config_and_count (fun _ _ _ _ => 0) [(10, 5); (20, 6); (20, 7)]
           (Tracker.create 1000 1)); simpl; lia.
Defined.

(* ===================================================================== *)
(** ** More about add_host and remove_host *)
(* ===================================================================== *)

(** X10.  Adding the same host a second time changes nothing. *)
Theorem add_host_twice (hosts : list Host) (host : Host) :
  Registry.add_host (Registry.add_host hosts host) host = Registry.add_host hosts host.
Proof.
  induction hosts as [|h rest IH]; simpl.
  - now rewrite decide_True.
  - destruct (decide (address h = address host)) as [Heq|Hne]; simpl.
    + now rewrite decide_True.
    + rewrite decide_False by assumption. now rewrite IH.
Qed.

(** X11.  Round trip: removing the address of a host that was just added,
    and that the collection did not know, gives back the collection as it
    was, and the call returns true. *)
Theorem add_then_remove_host (hosts : list Host) (host : Host) :
  address host ∉ address <$> hosts ->
  Registry.remove_host (Registry.add_host hosts host) (address host) = (true, hosts).
Proof.
  intros Habsent. rewrite add_host_absent by assumption.
  rewrite remove_host_erases by (reflexivity || assumption).
  now rewrite app_nil_r.
Qed.

Lemma add_then_remove_host_witness :
  Registry.remove_host (Registry.add_host Sample.hosts (Sample.host "10.0.0.9" "r3"))
    (address (Sample.host "10.0.0.9" "r3"))
  = (true, Sample.hosts).
Proof.
  apply (add_then_remove_host Sample.hosts (Sample.host "10.0.0.9" "r3")).
  apply (bool_decide_unpack _). vm_compute. exact I.
Defined.

(** X12.  After [add_host], a scan for the address of the new host meets
    that host, a scan for any other address meets what it met before, and
    the collection has grown by one entry exactly when the address was
    new. *)
Theorem add_host_lookup_and_size (hosts : list Host) (host : Host) (a : Address) :
  Registry.find_host a (Registry.add_host hosts host)
    = (if decide (address host = a) then Some host else Registry.find_host a hosts) /\
  length (Registry.add_host hosts host)
    = (if decide (address host ∈ address <$> hosts)
       then length hosts else S (length hosts)).
Proof.
  split; [apply find_host_add_host|].
  rewrite <- (length_fmap address (Registry.add_host hosts host)), add_host_addresses.
  destruct (decide (address host ∈ address <$> hosts)).
  - now rewrite length_fmap.
  - rewrite length_app, length_fmap. simpl. lia.
Qed.

(** X13.  [remove_host] returns true exactly when the address is in the
    collection.  Of the entries with that address it erases the first one
    only, and it keeps all the other entries, in their order. *)
Theorem remove_host_erases_first_match_only (hosts : list Host) (a : Address) :
  fst (Registry.remove_host hosts a) = bool_decide (a ∈ address <$> hosts) /\
  filter (fun h => address h = a) (snd (Registry.remove_host hosts a))
    = tail (filter (fun h => address h = a) hosts) /\
  filter (fun h => address h <> a) (snd (Registry.remove_host hosts a))
    = filter (fun h => address h <> a) hosts.
Proof.
  induction hosts as [|h rest (IHfound & IHsame & IHother)]; [repeat split|].
  cbn [Registry.remove_host]. rewrite fmap_cons.
  destruct (decide (address h = a)) as [Heq|Hne].
  - cbn [fst snd]. repeat split.
    + symmetry. apply bool_decide_eq_true_2. rewrite Heq. left.
    + now rewrite filter_cons_True.
    + now rewrite filter_cons_False by tauto.
  - destruct (Registry.remove_host rest a) as [found rest'] eqn:Hrest.
    cbn [fst snd] in *. repeat split.
    + rewrite IHfound. apply bool_decide_ext. rewrite elem_of_cons. split; [tauto|].
      intros [?|?]; [congruence|assumption].
    + now rewrite !filter_cons_False.
    + rewrite !filter_cons_True by assumption. now rewrite IHother.
Qed.

Lemma remove_host_keeps_unique hosts a :
  Registry.unique_addresses hosts ->
  Registry.unique_addresses (snd (Registry.remove_host hosts a)) /\
  a ∉ address <$> snd (Registry.remove_host hosts a).
Proof.
  unfold Registry.unique_addresses.
  induction hosts as [|h rest IH]; [split; [assumption|apply not_elem_of_nil]|].
  rewrite fmap_cons, NoDup_cons. intros [Hh Hnd]. cbn [Registry.remove_host].
  destruct (decide (address h = a)) as [Heq|Hne].
  - cbn [snd]. split; [assumption|]. now rewrite <- Heq.
  - destruct (IH Hnd) as [IHu IHa].
    assert (forall x, x ∈ address <$> snd (Registry.remove_host rest a) ->
                      x ∈ address <$> rest) as Hsub.
    { clear. intros x. induction rest as [|y rest IH]; [easy|].
      cbn [Registry.remove_host]. destruct (decide (address y = a)).
      - cbn [snd]. rewrite fmap_cons. now right.
      - destruct (Registry.remove_host rest a) as [f r]. cbn [snd] in *.
        rewrite !fmap_cons, !elem_of_cons. intros [?|?]; auto. }
    destruct (Registry.remove_host rest a) as [found rest']. cbn [snd] in *.
    rewrite fmap_cons, NoDup_cons, not_elem_of_cons. repeat split; auto.
Qed.

(** X14.  In a collection with at most one entry per address, removing a
    host leaves at most one entry per address and no entry for the
    address of that host. *)
Theorem remove_host_ptr_forgets_address (hosts : list Host) (host : Host) :
  Registry.unique_addresses hosts ->
  Registry.unique_addresses (Registry.remove_host_ptr hosts host) /\
  Registry.find_host (address host) (Registry.remove_host_ptr hosts host) = None.
Proof.
  intros Hu. unfold Registry.remove_host_ptr.
  destruct (remove_host_keeps_unique hosts (address host) Hu) as [Hu' Habsent].
  split; [exact Hu'|].
  destruct (Registry.find_host _ _) as [h|] eqn:Hfind; [|reflexivity].
  apply find_host_Some in Hfind as [Hin Ha]. exfalso. apply Habsent.
  apply list_elem_of_fmap. exists h. split; [symmetry; exact Ha|exact Hin].
Qed.

Lemma remove_host_ptr_forgets_address_witness :
  Registry.unique_addresses
    (Registry.remove_host_ptr Sample.hosts (Sample.host "10.0.0.2" "r5")) /\
  Registry.find_host (address (Sample.host "10.0.0.2" "r5"))
    (Registry.remove_host_ptr Sample.hosts (Sample.host "10.0.0.2" "r5")) = None.
Proof.
  apply (remove_host_ptr_forgets_address Sample.hosts (Sample.host "10.0.0.2" "r5")).
  unfold Registry.unique_addresses.
  apply (bool_decide_unpack (NoDup (address <$> Sample.hosts))). vm_compute. exact I.
Defined.

(** A collection with two entries for one address: [remove_host] erases
    the first and leaves the second. *)
Example remove_host_with_duplicates :
  Registry.remove_host
    [Sample.host "10.0.0.1" "r1"; Sample.host "10.0.0.2" "r1"; Sample.host "10.0.0.1" "r2"]
    (mkAddress "10.0.0.1" 9042)
  = (true, [Sample.host "10.0.0.2" "r1"; Sample.host "10.0.0.1" "r2"]).
Proof. reflexivity. Qed.

(* ===================================================================== *)
(** ** More about the connection marketplace *)
(* ===================================================================== *)

Section MoreMarketFacts.

Import Market MarketShape.

Implicit Types (m : Marketplace) (shard : Z).

Lemma available_deposit_all conns : forall m shard,
  available (deposit_all conns m) shard = available m shard ++ bound_to shard conns.
Proof.
  unfold deposit_all, bound_to.
  induction conns as [|conn conns IH]; intros m shard; simpl.
  - now rewrite app_nil_r.
  - rewrite IH, available_add_unpooled_connection.
    destruct (decide (shard_id conn = shard)) as [Heq|Hne].
    + rewrite filter_cons_True by assumption. rewrite fmap_cons, <- app_assoc. reflexivity.
    + now rewrite filter_cons_False by assumption.
Qed.

Lemma length_bound_to shard conns : (length (bound_to shard conns) <= length conns)%nat.
Proof. unfold bound_to. rewrite length_fmap. apply length_filter. Qed.

Lemma well_keyed_insert m shard l :
  well_keyed m ->
  Forall (fun c => shard_id (exported c) = shard) l ->
  well_keyed (<[shard := l]> m).
Proof.
  intros Hm Hl other l'. destruct (decide (shard = other)) as [<-|Hne].
  - rewrite lookup_insert_eq. now intros [= <-].
  - rewrite lookup_insert_ne by assumption. apply Hm.
Qed.

Lemma well_keyed_available m shard :
  well_keyed m -> Forall (fun c => shard_id (exported c) = shard) (available m shard).
Proof.
  intros Hm. unfold available.
  destruct (m !! shard) as [l|] eqn:Hl; simpl; [eauto|constructor].
Qed.

End MoreMarketFacts.

(** X15.  First in, first out.  A deposit goes to the back of the list of
    the shard of its connection and to no other list; so after a run of
    deposits into an empty marketplace, a withdrawal from a shard returns
    the connections bound to that shard in the order of their deposit,
    the oldest first. *)
Theorem deposits_are_withdrawn_in_order
    (conns : list Connection) (m : Marketplace) (shard how_many : Z) :
  0 <= how_many ->
  Z.of_nat (length conns) <= Int.INT_MAX ->
  Market.available (MarketShape.deposit_all conns m) shard
    = Market.available m shard ++ MarketShape.bound_to shard conns /\
  fst <$> Market.get_unpooled_connections shard how_many (MarketShape.deposit_all conns ∅)
    = Some (take (Z.to_nat how_many) (MarketShape.bound_to shard conns)).
Proof.
  intros Hcount Hsize. split; [apply available_deposit_all|].
  pose proof (available_deposit_all conns ∅ shard) as Havail.
  change (Market.available ∅ shard) with (@nil ExportedConnection) in Havail.
  rewrite app_nil_l in Havail.
  pose proof (length_bound_to shard conns) as Hlen.
  destruct (get_unpooled_connections_spec (MarketShape.deposit_all conns ∅) shard how_many)
    as (m' & Hget & _); [assumption|rewrite Havail; lia|].
  rewrite Hget, Havail. simpl. f_equal.
  destruct (Z_le_gt_dec how_many (Z.of_nat (length (MarketShape.bound_to shard conns)))).
  - now rewrite Z.min_l by lia.
  - rewrite Z.min_r by lia. rewrite !take_ge by lia. reflexivity.
Qed.

Lemma deposits_are_withdrawn_in_order_witness :
  let conns := [mkConnection 1 0; mkConnection 2 1; mkConnection 3 0; mkConnection 4 0] in
  Market.available (MarketShape.deposit_all conns Sample.market) 0
    = Market.available Sample.market 0 ++ MarketShape.bound_to 0 conns /\
  fst <$> Market.get_unpooled_connections 0 2 (MarketShape.deposit_all conns ∅)
    = Some (take (Z.to_nat 2) (MarketShape.bound_to 0 conns)).
Proof.
  apply (deposits_are_withdrawn_in_order
           [mkConnection 1 0; mkConnection 2 1; mkConnection 3 0; mkConnection 4 0]
           Sample.market 0 2).
  - lia.
  - unfold Int.INT_MAX. simpl. lia.
Defined.

(** X16.  Two withdrawals from a shard, one after the other, hand out what
    a single withdrawal of the sum of the two counts hands out, in the
    same order, and leave the same marketplace (the sum has to be an
    [int] to be asked for in one call). *)
Theorem withdraw_in_two_steps (m : Marketplace) (shard n1 n2 : Z) :
  0 <= n1 -> 0 <= n2 -> n1 + n2 <= Int.INT_MAX ->
  Z.of_nat (length (Market.available m shard)) <= Int.INT_MAX ->
  exists got1 m1 got2 m2,
    Market.get_unpooled_connections shard n1 m = Some (got1, m1) /\
    Market.get_unpooled_connections shard n2 m1 = Some (got2, m2) /\
    Market.get_unpooled_connections shard (n1 + n2) m = Some (got1 ++ got2, m2).
Proof.
  intros Hn1 Hn2 _ Hsize. unfold Market.available in Hsize.
  unfold Market.get_unpooled_connections at 1 3.
  destruct (m !! shard) as [[|c l]|] eqn:Hlookup.
  - exists [], m, [], m. unfold Market.get_unpooled_connections. now rewrite Hlookup.
  - change (Z.of_nat (length (c :: l)) <= Int.INT_MAX) in Hsize.
    set (held_here := c :: l) in *.
    rewrite to_int32_small by (unfold Int.INT_MIN; lia).
    destruct (Z.ltb_spec (Z.min n1 (Z.of_nat (length held_here))) 0); [lia|].
    destruct (Z.ltb_spec (Z.min (n1 + n2) (Z.of_nat (length held_here))) 0); [lia|].
    set (k1 := Z.to_nat (Z.min n1 (Z.of_nat (length held_here)))).
    set (k := Z.to_nat (Z.min (n1 + n2) (Z.of_nat (length held_here)))).
    exists (take k1 held_here), (<[shard := drop k1 held_here]> m).
    unfold Market.get_unpooled_connections.
    rewrite lookup_insert_eq.
    destruct (drop k1 held_here) as [|c' l'] eqn:Hdrop.
    + eexists _, _. split; [reflexivity|]. split; [reflexivity|].
      assert (length (drop k1 held_here) = 0%nat) as Hlen by now rewrite Hdrop.
      rewrite length_drop in Hlen.
      assert (k1 = length held_here) as Hk1 by lia.
      assert (k = length held_here) as Hk by lia.
      rewrite Hk, <- Hk1, Hdrop, app_nil_r. reflexivity.
    + assert (length (drop k1 held_here) = S (length l')) as Hlen by now rewrite Hdrop.
      rewrite length_drop in Hlen.
      rewrite <- Hdrop.
      rewrite to_int32_small by (unfold Int.INT_MIN; rewrite length_drop; lia).
      destruct (Z.ltb_spec (Z.min n2 (Z.of_nat (length (drop k1 held_here)))) 0);
        [rewrite length_drop in *; lia|].
      set (k2 := Z.to_nat (Z.min n2 (Z.of_nat (length (drop k1 held_here))))).
      assert (k = (k1 + k2)%nat) as Hk
        by (subst k k1 k2; rewrite length_drop; lia).
      eexists _, _. split; [reflexivity|]. split; [reflexivity|].
      rewrite insert_insert_eq, drop_drop, take_take_drop, Hk. reflexivity.
  - exists [], m, [], m. unfold Market.get_unpooled_connections. now rewrite Hlookup.
Qed.

Lemma withdraw_in_two_steps_witness :
  exists got1 m1 got2 m2,
    Market.get_unpooled_connections 0 1 Sample.market = Some (got1, m1) /\
    Market.get_unpooled_connections 0 1 m1 = Some (got2, m2) /\
    Market.get_unpooled_connections 0 (1 + 1) Sample.market = Some (got1 ++ got2, m2).
Proof.
  apply (withdraw_in_two_steps Sample.market 0 1 1);
    [lia|lia|unfold Int.INT_MAX; lia|].
  vm_compute. discriminate.
Defined.

(** X17.  When every connection is filed under the shard that it is bound
    to, a deposit keeps it so, and so does a withdrawal, which hands out
    only connections bound to the shard that was asked for. *)
Theorem withdrawn_connections_match_shard
    (m : Marketplace) (conn : Connection) (shard how_many : Z)
    (got : list ExportedConnection) (m' : Marketplace) :
  MarketShape.well_keyed m ->
  Market.get_unpooled_connections shard how_many m = Some (got, m') ->
  Forall (fun c => shard_id (exported c) = shard) got /\
  MarketShape.well_keyed m' /\
  MarketShape.well_keyed (Market.add_unpooled_connection conn m).
Proof.
  intros Hm Hget. split; [|split].
  - unfold Market.get_unpooled_connections in Hget.
    destruct (m !! shard) as [[|c l]|] eqn:Hl; simplify_eq; try constructor.
    case_match; simplify_eq. apply Forall_take. eauto.
  - unfold Market.get_unpooled_connections in Hget.
    destruct (m !! shard) as [[|c l]|] eqn:Hl; simplify_eq; try assumption.
    case_match; simplify_eq. apply well_keyed_insert; [assumption|].
    apply Forall_drop. eauto.
  - unfold Market.add_unpooled_connection. apply well_keyed_insert; [assumption|].
    apply Forall_app. split; [now apply well_keyed_available|].
    repeat constructor.
Qed.

Lemma withdrawn_connections_match_shard_witness :
  Forall (fun c => shard_id (exported c) = 0) [Sample.conn 1 0; Sample.conn 2 0] /\
  MarketShape.well_keyed {[ 0 := [Sample.conn 3 0]; 1 := [Sample.conn 4 1] ]} /\
  MarketShape.well_keyed (Market.add_unpooled_connection (mkConnection 9 1) Sample.market).
Proof.
  apply (withdrawn_connections_match_shard Sample.market (mkConnection 9 1) 0 2
           [Sample.conn 1 0; Sample.conn 2 0]
           {[ 0 := [Sample.conn 3 0]; 1 := [Sample.conn 4 1] ]}).
  - apply (bool_decide_unpack
             (map_Forall (fun s l => Forall (fun c => shard_id (exported c) = s) l)
                Sample.market)).
    vm_compute. exact I.
  - vm_compute. reflexivity.
Defined.

(** X18.  Asking for zero connections returns the empty sequence and
    leaves the marketplace as it was. *)
Theorem withdraw_nothing (m : Marketplace) (shard : Z) :
  Z.of_nat (length (Market.available m shard)) <= Int.INT_MAX ->
  Market.get_unpooled_connections shard 0 m = Some ([], m).
Proof.
  unfold Market.available, Market.get_unpooled_connections. intros Hsize.
  destruct (m !! shard) as [[|c l]|] eqn:Hl; try reflexivity.
  change (Z.of_nat (length (c :: l)) <= Int.INT_MAX) in Hsize.
  rewrite to_int32_small by (unfold Int.INT_MIN; lia).
  rewrite Z.min_l by lia. simpl. now rewrite insert_id.
Qed.

Lemma withdraw_nothing_witness :
  Market.get_unpooled_connections 0 0 Sample.market = Some ([], Sample.market).
Proof. apply (withdraw_nothing Sample.market 0). vm_compute. discriminate. Defined.

(** X19.  A second call of [close_unpooled_connections] imports and
    closes nothing, on whatever loop, and leaves the marketplace as the
    first call left it: no connection is imported twice. *)
Theorem close_twice_does_nothing (loop loop' : Z) (m : Marketplace) :
  Market.close_unpooled_connections loop'
    (snd (Market.close_unpooled_connections loop m))
  = ([], snd (Market.close_unpooled_connections loop m)).
Proof.
  unfold Market.close_unpooled_connections. cbn [snd]. f_equal.
  - assert (forall kvs : list (Z * list ExportedConnection),
              (forall kv, kv ∈ kvs -> snd kv = []) ->
              (kv ← kvs; Market.close_events loop' (snd kv)) = []) as Hnone.
    { induction kvs as [|kv kvs IH]; intros Hall; [reflexivity|].
      rewrite bind_cons, (Hall kv) by left. simpl. apply IH.
      intros kv' Hin. apply Hall. now right. }
    apply Hnone. intros [shard l] Hin. apply elem_of_map_to_list in Hin.
    simpl. now apply cleared_lookup in Hin.
  - rewrite <- map_fmap_compose. reflexivity.
Qed.

(** X20.  The marketplace never forgets a shard: a withdrawal and
    [close_unpooled_connections] leave the set of shard keys as it is, and
    a deposit adds at most the shard of its connection. *)
Theorem shard_keys_are_kept
    (m : Marketplace) (loop : Z) (conn : Connection) (shard how_many : Z)
    (got : list ExportedConnection) (m' : Marketplace) :
  Market.get_unpooled_connections shard how_many m = Some (got, m') ->
  dom m' = dom m /\
  dom (snd (Market.close_unpooled_connections loop m)) = dom m /\
  dom (Market.add_unpooled_connection conn m) = {[ shard_id conn ]} ∪ dom m.
Proof.
  intros Hget. split; [|split].
  - unfold Market.get_unpooled_connections in Hget.
    destruct (m !! shard) as [[|c l]|] eqn:Hl; simplify_eq; try reflexivity.
    case_match; simplify_eq. apply dom_insert_lookup_L. eauto.
  - apply dom_fmap_L.
  - apply dom_insert_L.
Qed.

Lemma shard_keys_are_kept_witness :
  dom ({[ 0 := [Sample.conn 3 0]; 1 := [Sample.conn 4 1] ]} : Marketplace)
    = dom Sample.market /\
  dom (snd (Market.close_unpooled_connections 5 Sample.market)) = dom Sample.market /\
  dom (Market.add_unpooled_connection (mkConnection 9 7) Sample.market)
    = {[ shard_id (mkConnection 9 7) ]} ∪ dom Sample.market.
Proof.
  apply (shard_keys_are_kept Sample.market 5 (mkConnection 9 7) 0 2
           [Sample.conn 1 0; Sample.conn 2 0]).
  vm_compute. reflexivity.
Defined.

(* ===================================================================== *)
(** ** More about Host::set *)
(* ===================================================================== *)

Section MoreHostSetFacts.

Import HostSet HostShape.

Lemma get_string_by_name_twice row name out :
  get_string_by_name row name (get_string_by_name row name out)
  = get_string_by_name row name out.
Proof. unfold get_string_by_name. now repeat case_match. Qed.

(** The host that [set] returns, field by field. *)
Lemma set_fields row use_tokens h :
  let sv1 := release_or_stored row h in
  let applies :=
    Version.ge sv1 (mkVersion 4 0 0)
    && bool_decide (is_Some (get_by_name row "dse_version")) in
  let dse_result :=
    Version.parse (get_string_by_name row "dse_version" "") (dse_server_version h) in
  fst (set row use_tokens h) =
  mkHost (address h)
    (get_string_by_name row "rack" "")
    (get_string_by_name row "data_center" "")
    (if applies && fst dse_result && Version.lt (snd dse_result) (mkVersion 6 7 0)
     then mkVersion 3 11 0 else sv1)
    (if applies then snd dse_result else dse_server_version h)
    (get_string_by_name row "partitioner" (partitioner h))
    (tokens h ++ if use_tokens then row_tokens row else []).
Proof.
  unfold set, set_release_version, correct_for_dse, set_partitioner_and_tokens,
    release_or_stored, row_tokens.
  destruct (Version.parse (get_string_by_name row "release_version" "") Version.default)
    as [[|] rel]; simpl;
  match goal with |- context [Version.ge ?sv (mkVersion 4 0 0)] =>
    destruct (Version.ge sv (mkVersion 4 0 0)) end; simpl;
  destruct (bool_decide (is_Some (get_by_name row "dse_version"))); simpl;
  try reflexivity;
  destruct (Version.parse (get_string_by_name row "dse_version" "") (dse_server_version h))
    as [[|] dse]; simpl; try reflexivity;
  destruct (Version.lt dse (mkVersion 6 7 0)); reflexivity.
Qed.

End MoreHostSetFacts.

(** X21.  A refresh that does not ask for tokens is idempotent: applying
    [set] with the same row a second time returns the host that the first
    call returned. *)
Theorem set_without_tokens_twice (row : Row) (h : Host) :
  fst (HostSet.set row false (fst (HostSet.set row false h)))
  = fst (HostSet.set row false h).
Proof.
  rewrite (set_fields row false (fst (HostSet.set row false h))).
  rewrite (set_fields row false h). cbv zeta. cbn [address rack dc server_version
    dse_server_version partitioner tokens]. unfold HostShape.release_or_stored.
  cbn [server_version].
  rewrite get_string_by_name_twice, !app_nil_r.
  destruct (Version.parse (HostSet.get_string_by_name row "release_version" "")
              Version.default) as [ok_r rel]. cbn [fst snd].
  generalize (bool_decide (is_Some (HostSet.get_by_name row "dse_version"))).
  intros has_dse.
  set (dse_text := HostSet.get_string_by_name row "dse_version" "").
  pose proof (parse_again dse_text (dse_server_version h)) as Htwice.
  destruct (Version.parse dse_text (dse_server_version h)) as [ok_d dse] eqn:Hdse.
  cbn [fst snd] in *.
  assert (Version.ge (mkVersion 3 11 0) (mkVersion 4 0 0) = false) as H311 by reflexivity.
  destruct ok_r.
  - destruct (Version.ge rel (mkVersion 4 0 0)) eqn:Hge, has_dse;
      repeat (cbn [andb fst snd] || rewrite Hdse || rewrite Htwice); reflexivity.
  - destruct (Version.ge (server_version h) (mkVersion 4 0 0)) eqn:Hge,
      has_dse, ok_d, (Version.lt dse (mkVersion 6 7 0)) eqn:Hlt;
      repeat (cbn [andb fst snd] || rewrite H311 || rewrite Hge || rewrite Hdse
              || rewrite Htwice || rewrite Hlt);
      reflexivity.
Qed.

(** X22.  No correction without cause: when the version that
    [server_version_] holds after the release version step is below
    (4,0,0), or the row has no [dse_version] field, [set] leaves that
    version in [server_version_], does not touch the stored DSE version,
    and does not warn about the DSE version. *)
Theorem set_leaves_version_uncorrected (row : Row) (use_tokens : bool) (h : Host) :
  Version.ge (HostShape.release_or_stored row h) (mkVersion 4 0 0) = false \/
  HostSet.get_by_name row "dse_version" = None ->
  server_version (fst (HostSet.set row use_tokens h)) = HostShape.release_or_stored row h /\
  dse_server_version (fst (HostSet.set row use_tokens h)) = dse_server_version h /\
  forall text, InvalidDseVersion text ∉ snd (HostSet.set row use_tokens h).
Proof.
  intros Hcause.
  assert (Version.ge (HostShape.release_or_stored row h) (mkVersion 4 0 0)
          && bool_decide (is_Some (HostSet.get_by_name row "dse_version")) = false) as Hoff.
  { destruct Hcause as [Hc|Hc]; rewrite Hc; [reflexivity|].
    rewrite bool_decide_eq_false_2 by (intros [? ?]; discriminate).
    apply andb_false_r. }
  rewrite (set_fields row use_tokens h). cbv zeta. rewrite Hoff. cbn [andb].
  split; [reflexivity|]. split; [reflexivity|].
  intros text. revert Hoff.
  unfold HostSet.set, HostSet.set_release_version, HostSet.correct_for_dse,
    HostShape.release_or_stored.
  destruct (Version.parse (HostSet.get_string_by_name row "release_version" "")
              Version.default) as [[|] rel]; cbn [fst snd server_version
    HostSet.with_server_version]; intros ->; cbn [snd app];
    [apply not_elem_of_nil|].
  rewrite list_elem_of_singleton. discriminate.
Qed.

Lemma set_leaves_version_uncorrected_witness :
  let row : Row := {[ "release_version" := VData "3.0.8" None;
                      "dse_version" := VData "5.0.1" None ]} in
  let h := Sample.host "10.0.0.1" "r1" in
  server_version (fst (HostSet.set row true h)) = HostShape.release_or_stored row h /\
  dse_server_version (fst (HostSet.set row true h)) = dse_server_version h /\
  forall text, InvalidDseVersion text ∉ snd (HostSet.set row true h).
Proof.
  apply (set_leaves_version_uncorrected
           {[ "release_version" := VData "3.0.8" None;
              "dse_version" := VData "5.0.1" None ]}
           true (Sample.host "10.0.0.1" "r1")).
  left. vm_compute. reflexivity.
Defined.

(** X23.  [set] never clears the tokens: a call that asks for tokens
    appends the elements of the row's [tokens] collection behind the
    tokens already stored, so a refresh with the same row stores each of
    them a second time; a call that does not ask for tokens leaves the
    stored tokens as they are. *)
Theorem set_accumulates_tokens (row : Row) (h : Host) :
  tokens (fst (HostSet.set row true h)) = tokens h ++ HostShape.row_tokens row /\
  tokens (fst (HostSet.set row true (fst (HostSet.set row true h))))
    = tokens h ++ HostShape.row_tokens row ++ HostShape.row_tokens row /\
  tokens (fst (HostSet.set row false h)) = tokens h.
Proof.
  rewrite (set_fields row true (fst (HostSet.set row true h))).
  rewrite (set_fields row true h), (set_fields row false h). cbv zeta. cbn [tokens].
  rewrite app_nil_r, <- app_assoc. repeat split.
Qed.

Example set_twice_doubles_tokens :
  tokens (fst (HostSet.set {[ "tokens" := VData "" (Some ["-42"; "17"]) ]} true
                 (fst (HostSet.set {[ "tokens" := VData "" (Some ["-42"; "17"]) ]} true
                         (Sample.host "10.0.0.1" "r1")))))
  = ["-42"; "17"; "-42"; "17"].
Proof. vm_compute. reflexivity. Qed.

(* ===================================================================== *)
(** ** The demo: hashing and ordering of addresses *)
(* ===================================================================== *)

Section DemoFacts.

Import Demo.

Lemma hash_step_mod w hash byte :
  0 <= w -> hash_step w hash byte = (33 * hash + byte) mod 2 ^ w.
Proof.
  intros Hw. unfold hash_step, Int.wrap_unsigned.
  rewrite Z.shiftl_mul_pow2 by lia. change (2 ^ 5) with 32.
  rewrite Zplus_mod_idemp_l, <- Z.add_assoc, Zplus_mod_idemp_l. f_equal. lia.
Qed.

(** The wrap-around of the steps can be left to the end. *)
Lemma fold_hash_step_mod w bytes : forall hash,
  0 <= w ->
  fold_left (hash_step w) bytes (hash mod 2 ^ w)
  = fold_left (fun h b => 33 * h + b) bytes hash mod 2 ^ w.
Proof.
  induction bytes as [|b bytes IH]; intros hash Hw; simpl; [reflexivity|].
  rewrite <- (IH (33 * hash + b)) by assumption. f_equal.
  rewrite hash_step_mod by assumption.
  rewrite <- Zplus_mod_idemp_l, Zmult_mod_idemp_r, Zplus_mod_idemp_l.
  reflexivity.
Qed.

Lemma less_bytes_irrefl xs : less_bytes xs xs = false.
Proof.
  induction xs as [|x xs IH]; simpl; [reflexivity|].
  now rewrite Z.sub_diag.
Qed.

Lemma less_bytes_cons x y xs ys :
  less_bytes (x :: xs) (y :: ys) =
  if decide (x = y) then less_bytes xs ys else bool_decide (x < y).
Proof.
  simpl. destruct (decide (x = y)) as [->|Hne].
  - now rewrite Z.sub_diag.
  - destruct (Z.eqb_spec (x - y) 0); [lia|]. simpl.
    destruct (Z.ltb_spec (x - y) 0).
    + now rewrite bool_decide_eq_true_2 by lia.
    + now rewrite bool_decide_eq_false_2 by lia.
Qed.

Lemma less_bytes_trans xs : forall ys zs,
  less_bytes xs ys = true -> less_bytes ys zs = true -> less_bytes xs zs = true.
Proof.
  induction xs as [|x xs IH]; intros [|y ys] [|z zs]; try discriminate.
  rewrite !less_bytes_cons.
  destruct (decide (x = y)), (decide (y = z)), (decide (x = z)); subst;
    try congruence; rewrite ?bool_decide_eq_true; try lia; eauto.
Qed.

Lemma less_bytes_asym xs : forall ys,
  less_bytes xs ys = true -> less_bytes ys xs = false.
Proof.
  induction xs as [|x xs IH]; intros [|y ys]; try reflexivity; try discriminate.
  rewrite !less_bytes_cons.
  destruct (decide (x = y)), (decide (y = x)); subst; try congruence; eauto.
  rewrite bool_decide_eq_true. intros Hlt. apply bool_decide_eq_false_2. lia.
Qed.

Lemma less_bytes_equiv xs : forall ys,
  length xs = length ys ->
  (less_bytes xs ys = false /\ less_bytes ys xs = false <-> xs = ys).
Proof.
  induction xs as [|x xs IH]; intros [|y ys] Hlen; try discriminate.
  - split; auto.
  - rewrite !less_bytes_cons. injection Hlen as Hlen.
    destruct (decide (x = y)) as [->|Hne].
    + rewrite decide_True by reflexivity. rewrite (IH ys Hlen).
      split; [now intros ->|]. now intros [= ->].
    + rewrite decide_False by congruence. split; [|congruence].
      intros [Hxy Hyx]. apply bool_decide_eq_false in Hxy, Hyx. lia.
Qed.

Lemma IP4_value_small b1 b2 b3 b4 :
  is_byte b1 -> is_byte b2 -> is_byte b3 -> is_byte b4 ->
  IP4_value b1 b2 b3 b4 = b4 + 256 * (b3 + 256 * (b2 + 256 * b1)).
Proof.
  unfold is_byte, IP4_value, Int.wrap_unsigned. intros H1 H2 H3 H4.
  change (2 ^ 32) with 4294967296.
  rewrite (Z.mod_small b1), (Z.mod_small b2), (Z.mod_small b3), (Z.mod_small b4) by lia.
  rewrite (Z.mod_small (256 * b1)) by lia.
  rewrite (Z.mod_small (b2 + 256 * b1)) by lia.
  rewrite (Z.mod_small (256 * (b2 + 256 * b1))) by lia.
  rewrite (Z.mod_small (b3 + 256 * (b2 + 256 * b1))) by lia.
  rewrite (Z.mod_small (256 * (b3 + 256 * (b2 + 256 * b1)))) by lia.
  now rewrite Z.mod_small by lia.
Qed.

End DemoFacts.

Lemma get_hash_mod (w : Z) (ip_bytes : list Z) :
  32 <= w ->
  Demo.get_hash w ip_bytes
  = fold_left (fun h b => 33 * h + b) ip_bytes 5381 mod 2 ^ w.
Proof.
  intros Hw. unfold Demo.get_hash.
  assert (2 ^ 32 <= 2 ^ w) as Hpow by (apply Z.pow_le_mono_r; lia).
  change (2 ^ 32) with 4294967296 in Hpow.
  rewrite <- fold_hash_step_mod by lia. now rewrite Z.mod_small by lia.
Qed.

(** X24.  On an [unsigned long] of [w] bits (32 at least), the djb2 hash
    is the base-33 polynomial of the bytes on top of 5381, reduced modulo
    [2^w] once: the wrap-around of the single steps does not change the
    result. *)
Theorem get_hash_is_polynomial (w : Z) (ip_bytes : list Z) :
  32 <= w ->
  Demo.get_hash w ip_bytes
  = fold_left (fun h b => 33 * h + b) ip_bytes 5381 mod 2 ^ w.
Proof.
  intros Hw. unfold Demo.get_hash.
  assert (5381 < 2 ^ w) as Hfits.
  { apply Z.lt_le_trans with (2 ^ 32); [reflexivity|].
    apply Z.pow_le_mono_r; lia. }
  rewrite <- (Z.mod_small 5381 (2 ^ w)) at 1 by lia.
  apply fold_hash_step_mod. lia.
Qed.

Lemma get_hash_is_polynomial_witness :
  Demo.get_hash 64 [10; 0; 8; 1]
  = fold_left (fun h b => 33 * h + b) [10; 0; 8; 1] 5381 mod 2 ^ 64.
Proof. apply (get_hash_is_polynomial 64 [10; 0; 8; 1]). lia. Defined.

(** X25.  The hash does not tell all version 4 addresses apart: raising
    the third byte by one and lowering the fourth by 33 gives another
    address with the same hash. *)
Theorem hash_collides_on_v4 (w b1 b2 b3 b4 : Z) :
  32 <= w ->
  Demo.well_formed (AddrV4 b1 b2 b3 b4) ->
  b3 < 255 -> 33 <= b4 ->
  Demo.well_formed (AddrV4 b1 b2 (b3 + 1) (b4 - 33)) /\
  AddrV4 b1 b2 (b3 + 1) (b4 - 33) <> AddrV4 b1 b2 b3 b4 /\
  Demo.hash w (AddrV4 b1 b2 (b3 + 1) (b4 - 33)) = Demo.hash w (AddrV4 b1 b2 b3 b4).
Proof.
  intros Hw (H1 & H2 & H3 & H4) Hb3 Hb4. unfold Demo.is_byte in *.
  split; [repeat split; lia|]. split; [intros [= ? ?]; lia|].
  unfold Demo.hash. rewrite !get_hash_mod by assumption.
  f_equal. simpl. lia.
Qed.

Lemma hash_collides_on_v4_witness :
  Demo.well_formed (AddrV4 10 0 (0 + 1) (33 - 33)) /\
  AddrV4 10 0 (0 + 1) (33 - 33) <> AddrV4 10 0 0 33 /\
  Demo.hash 64 (AddrV4 10 0 (0 + 1) (33 - 33)) = Demo.hash 64 (AddrV4 10 0 0 33).
Proof.
  apply (hash_collides_on_v4 64 10 0 0 33); unfold Demo.well_formed, Demo.is_byte; lia.
Defined.

(** X26.  [less] is a strict order on addresses: no address is less than
    itself, two addresses are never less than each other both ways, and
    it is transitive. *)
Theorem less_is_strict_order (a b c : ip_addr) :
  Demo.less a a = false /\
  (Demo.less a b = true -> Demo.less b a = false) /\
  (Demo.less a b = true -> Demo.less b c = true -> Demo.less a c = true).
Proof.
  unfold Demo.less. split; [apply less_bytes_irrefl|].
  split; [apply less_bytes_asym|apply less_bytes_trans].
Qed.

(** X27.  Two addresses are unordered by [less] exactly when their
    sixteen-byte forms are equal.  So [less] does not tell a version 4
    address from the version 6 address that it is mapped to, although the
    two are different addresses. *)
Theorem less_equivalence_is_mapped_equality (a b : ip_addr) (b1 b2 b3 b4 : Z) :
  Demo.well_formed a -> Demo.well_formed b ->
  (Demo.less a b = false /\ Demo.less b a = false <-> Demo.to_ip_v6 a = Demo.to_ip_v6 b) /\
  Demo.less (AddrV4 b1 b2 b3 b4) (AddrV6 (Demo.to_ip_v6 (AddrV4 b1 b2 b3 b4))) = false /\
  Demo.less (AddrV6 (Demo.to_ip_v6 (AddrV4 b1 b2 b3 b4))) (AddrV4 b1 b2 b3 b4) = false.
Proof.
  intros Ha Hb. split.
  - unfold Demo.less. apply less_bytes_equiv.
    assert (forall x, Demo.well_formed x -> length (Demo.to_ip_v6 x) = 16%nat) as Hlen.
    { intros [? ? ? ?|bytes]; simpl; [reflexivity|tauto]. }
    now rewrite !Hlen.
  - unfold Demo.less. cbn [Demo.to_ip_v6]. split; apply less_bytes_irrefl.
Qed.

Lemma less_equivalence_is_mapped_equality_witness :
  (Demo.less (AddrV4 10 0 8 1) (AddrV4 10 0 8 2) = false /\
   Demo.less (AddrV4 10 0 8 2) (AddrV4 10 0 8 1) = false
   <-> Demo.to_ip_v6 (AddrV4 10 0 8 1) = Demo.to_ip_v6 (AddrV4 10 0 8 2)) /\
  Demo.less (AddrV4 10 0 8 1) (AddrV6 (Demo.to_ip_v6 (AddrV4 10 0 8 1))) = false /\
  Demo.less (AddrV6 (Demo.to_ip_v6 (AddrV4 10 0 8 1))) (AddrV4 10 0 8 1) = false.
Proof.
  apply (less_equivalence_is_mapped_equality (AddrV4 10 0 8 1) (AddrV4 10 0 8 2) 10 0 8 1);
    unfold Demo.well_formed, Demo.is_byte; lia.
Defined.

(** X28.  Round trip of the macro [IP4]: for four bytes, the address that
    it builds has exactly these bytes, in the order given. *)
Theorem IP4_round_trip (b1 b2 b3 b4 : Z) :
  Demo.is_byte b1 -> Demo.is_byte b2 -> Demo.is_byte b3 -> Demo.is_byte b4 ->
  Demo.IP4 b1 b2 b3 b4 = AddrV4 b1 b2 b3 b4.
Proof.
  intros H1 H2 H3 H4. unfold Demo.IP4, Demo.ip4.
  rewrite IP4_value_small by assumption. unfold Demo.is_byte in *.
  change 255 with (Z.ones 8). rewrite !Z.land_ones by lia.
  rewrite !Z.shiftr_div_pow2 by lia.
  change (2 ^ 24) with 16777216. change (2 ^ 16) with 65536. change (2 ^ 8) with 256.
  f_equal.
  - rewrite Z.mod_small;
      [symmetry; apply Z.div_unique with (r := b4 + 256 * (b3 + 256 * b2)); lia|].
    split; [apply Z.div_pos; lia|apply Z.div_lt_upper_bound; lia].
  - symmetry. apply Z.mod_unique with (q := b1); [lia|].
    symmetry. apply Z.div_unique with (r := b4 + 256 * b3); lia.
  - symmetry. apply Z.mod_unique with (q := b2 + 256 * b1); [lia|].
    symmetry. apply Z.div_unique with (r := b4); lia.
  - symmetry. apply Z.mod_unique with (q := b3 + 256 * (b2 + 256 * b1)); lia.
Qed.

Lemma IP4_round_trip_witness : Demo.IP4 192 168 0 1 = AddrV4 192 168 0 1.
Proof. apply (IP4_round_trip 192 168 0 1); unfold Demo.is_byte; lia. Defined.

(** X29.  On version 4 addresses, [less] is the order of the numbers that
    [IP4] is given: one address is less than another exactly when its
    32-bit value is the smaller one. *)
Theorem less_on_v4_is_numeric (a1 a2 a3 a4 b1 b2 b3 b4 : Z) :
  Demo.well_formed (AddrV4 a1 a2 a3 a4) ->
  Demo.well_formed (AddrV4 b1 b2 b3 b4) ->
  Demo.less (AddrV4 a1 a2 a3 a4) (AddrV4 b1 b2 b3 b4)
  = (Demo.IP4_value a1 a2 a3 a4 <? Demo.IP4_value b1 b2 b3 b4).
Proof.
  intros (Ha1 & Ha2 & Ha3 & Ha4) (Hb1 & Hb2 & Hb3 & Hb4).
  rewrite !IP4_value_small by assumption. unfold Demo.is_byte in *.
  unfold Demo.less. cbn [Demo.to_ip_v6].
  rewrite !less_bytes_cons. rewrite !decide_True by reflexivity.
  change (Demo.less_bytes [] []) with false.
  destruct (decide (a1 = b1)), (decide (a2 = b2)), (decide (a3 = b3)), (decide (a4 = b4));
    subst;
    repeat match goal with
    | |- context [bool_decide ?P] => destruct (bool_decide_reflect P)
    end;
    symmetry; (apply Z.ltb_lt || apply Z.ltb_ge); lia.
Qed.

Lemma less_on_v4_is_numeric_witness :
  Demo.less (AddrV4 10 0 8 2) (AddrV4 10 8 2 1)
  = (Demo.IP4_value 10 0 8 2 <? Demo.IP4_value 10 8 2 1).
Proof.
  apply (less_on_v4_is_numeric 10 0 8 2 10 8 2 1);
    unfold Demo.well_formed, Demo.is_byte; lia.
Defined.
